(** * FileSearcher-Brit: a shallow embedding of [filesearch.go]

    The development follows the program's pipeline: the Go library
    primitives the program calls ([strings], [strconv], [path/filepath],
    [fmt]), the configuration and file metadata, the extension map built by
    [main], the match predicate [isMatch], the two traversals [scanFlat] and
    [scanRecursive], the formatters and [main] itself.  Go strings are byte
    strings, Go [int] and [int64] are 64-bit and are carried in [Z]. *)

From Stdlib Require Import ZArith List Ascii String Lia Bool.
From Stdlib Require Import DecimalString.
From stdpp Require Import base gmap strings list.

Local Open Scope Z_scope.

(** ** Bytes and strings *)

Definition code (c : ascii) : Z := Z.of_N (N_of_ascii c).

Definition byte (n : Z) : ascii := ascii_of_N (Z.to_N n).

(** [utf8.RuneSelf]: bytes below it are single-byte (ASCII) runes. *)
Definition RuneSelf : Z := 128.

Fixpoint bytes (s : string) : list ascii :=
  match s with
  | EmptyString => []
  | String c s' => c :: bytes s'
  end.

Fixpoint mapBytes (f : ascii -> ascii) (s : string) : string :=
  match s with
  | EmptyString => EmptyString
  | String c s' => String (f c) (mapBytes f s')
  end.

Definition isASCII (s : string) : bool :=
  forallb (fun c => code c <? RuneSelf) (bytes s).

(** The platform: what the Go runtime and the operating system decide and the
    program only calls.  The Unicode paths of [strings.ToLower] and
    [strings.TrimSpace] run on tables of package [unicode]; [filepath.Join],
    [filepath.Dir] and [os.IsPathSeparator] depend on the target system. *)
Class Platform := {
  (** [strings.Map(unicode.ToLower, s)], taken when [s] has a non-ASCII byte *)
  Map_unicode_ToLower : string -> string;
  (** [strings.TrimFunc(s, unicode.IsSpace)] *)
  TrimFunc_IsSpace : string -> string;
  (** [strings.TrimRightFunc(s, unicode.IsSpace)] *)
  TrimRightFunc_IsSpace : string -> string;
  IsPathSeparator : ascii -> bool;
  Join : string -> string -> string;
  Dir : string -> string
}.

Section Strings.
Context `{Platform}.

(** [strings.HasPrefix] *)
Definition HasPrefix (s pre : string) : bool := String.prefix pre s.

(** [strings.ToLower]: ASCII-only strings are lowered byte by byte, and
    returned as they are when they hold no upper-case letter. *)
Definition isUpper (c : ascii) : bool := (65 <=? code c) && (code c <=? 90).

Definition lowerByte (c : ascii) : ascii :=
  if isUpper c then byte (code c + 32) else c.

Definition ToLower (s : string) : string :=
  if isASCII s then
    if existsb isUpper (bytes s) then mapBytes lowerByte s else s
  else Map_unicode_ToLower s.

(** [strings.TrimSpace]: the table [asciiSpace] holds tab, newline, vertical
    tab, form feed, carriage return and space. *)
Definition asciiSpace (c : ascii) : bool :=
  ((9 <=? code c) && (code c <=? 13)) || (code c =? 32).

(** The first loop: [(non-ASCII byte met, s[start:])]. *)
Fixpoint TrimSpace_start (s : string) : bool * string :=
  match s with
  | EmptyString => (false, EmptyString)
  | String c s' =>
      if RuneSelf <=? code c then (true, s)
      else if asciiSpace c then TrimSpace_start s'
      else (false, s)
  end.

(** The second loop, from the end: [(non-ASCII byte met, s[:stop])]. *)
Fixpoint TrimSpace_stop (s : string) : bool * string :=
  match s with
  | EmptyString => (false, EmptyString)
  | String c s' =>
      match TrimSpace_stop s' with
      | (true, r) => (true, String c r)
      | (false, EmptyString) =>
          if RuneSelf <=? code c then (true, String c EmptyString)
          else if asciiSpace c then (false, EmptyString)
          else (false, String c EmptyString)
      | (false, r) => (false, String c r)
      end
  end.

Definition TrimSpace (s : string) : string :=
  let '(na, s1) := TrimSpace_start s in
  if na then TrimFunc_IsSpace s1
  else
    let '(nb, s2) := TrimSpace_stop s1 in
    if nb then TrimRightFunc_IsSpace s2 else s2.

(** [strings.Split(s, sep)] for a non-empty separator: [skip] counts the
    bytes of a separator already matched that are still to be passed. *)
Fixpoint splitFrom (sep : string) (skip : nat) (s : string) : list string :=
  match s with
  | EmptyString => [EmptyString]
  | String c s' =>
      match skip with
      | S k => splitFrom sep k s'
      | O =>
          if String.prefix sep s
          then EmptyString :: splitFrom sep (String.length sep - 1)%nat s'
          else match splitFrom sep O s' with
               | h :: t => String c h :: t
               | [] => [String c EmptyString]
               end
      end
  end.

Definition Split (s sep : string) : list string := splitFrom sep O s.

(** [strings.ReplaceAll(s, old, new)] for a non-empty [old]. *)
Fixpoint replaceFrom (old new : string) (skip : nat) (s : string) : string :=
  match s with
  | EmptyString => EmptyString
  | String c s' =>
      match skip with
      | S k => replaceFrom old new k s'
      | O =>
          if String.prefix old s
          then new +:+ replaceFrom old new (String.length old - 1)%nat s'
          else String c (replaceFrom old new O s')
      end
  end.

Definition ReplaceAll (s old new : string) : string := replaceFrom old new O s.

(** [filepath.Ext]: the loop runs from the last byte down, stops at a path
    separator and returns [path[i:]] at the first dot. *)
Fixpoint Ext_scan (rev_path : list ascii) (suffix : string) : string :=
  match rev_path with
  | [] => EmptyString
  | c :: rest =>
      if IsPathSeparator c then EmptyString
      else if (code c =? 46) then String c suffix
      else Ext_scan rest (String c suffix)
  end.

Definition Ext (path : string) : string := Ext_scan (rev (bytes path)) EmptyString.

End Strings.

(** ** [strconv.Atoi] on a 64-bit platform *)

Inductive NumError := ErrSyntax | ErrRange.

Definition maxUint64 : Z := 2 ^ 64 - 1.

(** Fast path: [ch -= '0'] is byte arithmetic, so it wraps below ['0']. *)
Fixpoint atoi_fast (s : string) (n : Z) : option Z :=
  match s with
  | EmptyString => Some n
  | String ch s' =>
      let d := (code ch - 48) mod 256 in
      if 9 <? d then None else atoi_fast s' (n * 10 + d)
  end.

(** The digit loop of [ParseUint(s, 10, 64)]. *)
Fixpoint parseUint_loop (s : string) (n : Z) : Z * option NumError :=
  match s with
  | EmptyString => (n, None)
  | String c s' =>
      if (48 <=? code c) && (code c <=? 57) then
        let d := code c - 48 in
        if maxUint64 / 10 + 1 <=? n then (maxUint64, Some ErrRange)
        else
          let n10 := n * 10 in
          let n1 := (n10 + d) mod 2 ^ 64 in
          if (n1 <? n10) || (maxUint64 <? n1) then (maxUint64, Some ErrRange)
          else parseUint_loop s' n1
      else (0, Some ErrSyntax)
  end.

Definition ParseUint (s : string) : Z * option NumError :=
  match s with
  | EmptyString => (0, Some ErrSyntax)
  | _ => parseUint_loop s 0
  end.

(** [ParseInt(s, 10, 0)] *)
Definition ParseInt (s : string) : Z * option NumError :=
  match s with
  | EmptyString => (0, Some ErrSyntax)
  | String c0 s' =>
      let neg := code c0 =? 45 in
      let body := if (code c0 =? 43) || neg then s' else s in
      let '(un, err) := ParseUint body in
      match err with
      | Some ErrSyntax => (0, err)
      | _ =>
          let cutoff := 2 ^ 63 in
          if negb neg && (cutoff <=? un) then (cutoff - 1, Some ErrRange)
          else if neg && (cutoff <? un) then (- cutoff, Some ErrRange)
          else (if neg then - un else un, None)
      end
  end.

Definition Atoi (s : string) : Z * option NumError :=
  let sLen := Z.of_nat (String.length s) in
  if (0 <? sLen) && (sLen <? 19) then
    match s with
    | EmptyString => (0, Some ErrSyntax)
    | String c0 s' =>
        let signed := (code c0 =? 45) || (code c0 =? 43) in
        let body := if signed then s' else s in
        if signed && (Z.of_nat (String.length body) <? 1) then (0, Some ErrSyntax)
        else
          match atoi_fast body 0 with
          | None => (0, Some ErrSyntax)
          | Some n => (if code c0 =? 45 then - n else n, None)
          end
    end
  else ParseInt s.

(** ** Configuration and file metadata *)

(** [Config] holds command line arguments. *)
Record Config := {
  cDir : string;
  Day : Z;
  Month : Z;
  Year : Z;
  AllDate : string;
  Recursive : bool;
  Extensions : string;
  OutputFormat : string
}.

(** [time.Time], by what the program reads of it: the calendar date that
    [Date()] returns and the clock fields that [Format] prints. *)
Record Time := {
  tYear : Z;
  tMonth : Z;
  tDay : Z;
  tHour : Z;
  tMinute : Z;
  tSecond : Z
}.

Definition Date (t : Time) : Z * Z * Z := (tYear t, tMonth t, tDay t).

(** [os.FileInfo] *)
Record FileInfo := {
  Name : string;
  Size : Z;
  ModTime : Time
}.

(** ** The extension map of [main] and the match predicate *)

Section Match.
Context `{Platform}.

(** One turn of the loop over [parts] in [main]: the key that is stored. *)
Definition normalizeExt (p : string) : string :=
  let ext := ToLower (TrimSpace p) in
  if negb (HasPrefix ext ".") then "." +:+ ext else ext.

(** [allowedExts] as [main] builds it from [config.Extensions]. *)
Definition allowedExts (extensions : string) : gmap string bool :=
  if negb (String.eqb extensions "") then
    foldl (fun m p => <[normalizeExt p := true]> m) ∅ (Split extensions ",")
  else ∅.

(** [exts[ext]]: a missing key reads as [false]. *)
Definition mapIndex (exts : gmap string bool) (ext : string) : bool :=
  default false (exts !! ext).

(** [isMatch]: the brain of the filter logic. *)
Definition isMatch (info : FileInfo) (c : Config) (exts : gmap string bool) : bool :=
  if (0 <? size exts)%nat && negb (mapIndex exts (ToLower (Ext (Name info))))
  then false
  else
    let '(y, m, d) := Date (ModTime info) in
    let parts := Split (AllDate c) "/" in
    if negb (String.eqb (AllDate c) "") && (length parts =? 3)%nat then
      let reqD := fst (Atoi (nth 0 parts "")) in
      let reqM := fst (Atoi (nth 1 parts "")) in
      let reqY := fst (Atoi (nth 2 parts "")) in
      if negb (reqD =? d) || negb (reqM =? m) || negb (reqY =? y)
      then false
      else true
    else if negb (Year c =? 0) && negb (Year c =? y) then false
    else if negb (Month c =? 0) && negb (Month c =? m) then false
    else if negb (Day c =? 0) && negb (Day c =? d) then false
    else true.

End Match.

(** ** [fmt] verbs and [float64] arithmetic used by the formatters *)

(** [%d] *)
Definition Sprint_d (n : Z) : string := NilZero.string_of_int (Z.to_int n).

(** [%02d] and [%04d] as [time.Format] pads its fields. *)
Definition appendInt (n : Z) (width : nat) : string :=
  let digits := Sprint_d (Z.abs n) in
  let pad := String.concat "" (repeat "0"%string (width - String.length digits)) in
  (if n <? 0 then "-" else "") +:+ pad +:+ digits.

(** Round [h / 2^k] to the nearest integer, ties to the even one. *)
Definition roundHalfEven (h k : Z) : Z :=
  let q := h / 2 ^ k in
  let r := h mod 2 ^ k in
  if (2 ^ k <? 2 * r) || ((2 * r =? 2 ^ k) && Z.odd q) then q + 1 else q.

(** [float64(n)] for an [int64]: the nearest number with a 53-bit
    significand, ties to even.  The result is an integer. *)
Definition float64 (n : Z) : Z :=
  let a := Z.abs n in
  if a <? 2 ^ 53 then n
  else
    let e := Z.log2 a - 52 in
    Z.sgn n * (roundHalfEven a e * 2 ^ e).

(** A [float64] quotient [x / y] of two such numbers where [y] is a power of
    two between 1 and 2^30: the division is exact, so the value is the dyadic
    rational [x / 2^k], kept as the pair [(x, k)]. *)
Definition float64_div (x y : Z) : Z * Z := (x, Z.log2 y).

(** [%.2f]: the exact decimal expansion rounded at the second decimal,
    ties to even. *)
Definition Sprint_2f (x : Z * Z) : string :=
  let '(num, k) := x in
  let v := roundHalfEven (100 * Z.abs num) k in
  (if num <? 0 then "-" else "") +:+
  Sprint_d (v / 100) +:+ "." +:+ appendInt (v mod 100) 2.

(** ** Formatters *)

Definition kb : Z := 1024.
Definition mb : Z := kb * 1024.
Definition gb : Z := mb * 1024.

Definition formatSize (bytes : Z) : string :=
  if gb <=? bytes then Sprint_2f (float64_div (float64 bytes) (float64 gb)) +:+ " GB"
  else if mb <=? bytes then Sprint_2f (float64_div (float64 bytes) (float64 mb)) +:+ " MB"
  else if kb <=? bytes then Sprint_2f (float64_div (float64 bytes) (float64 kb)) +:+ " KB"
  else Sprint_d bytes +:+ " B".

(** [FileResult] handles the output data structure. *)
Record FileResult := {
  rName : string;
  rPath : string;
  rLastModified : string;
  rModTimeRaw : Time;
  rSize : Z
}.

(** [t.Format("2006-01-02 15:04:05")] *)
Definition Format (t : Time) : string :=
  appendInt (tYear t) 4 +:+ "-" +:+ appendInt (tMonth t) 2 +:+ "-" +:+
  appendInt (tDay t) 2 +:+ " " +:+ appendInt (tHour t) 2 +:+ ":" +:+
  appendInt (tMinute t) 2 +:+ ":" +:+ appendInt (tSecond t) 2.

(** Go errors: the two sentinels of [path/filepath] and any other error, by
    its message. *)
Inductive error := SkipDir | SkipAll | Err (msg : string).

Definition isSkipDir (e : error) : bool :=
  match e with SkipDir => true | _ => false end.

Definition isSkipAll (e : error) : bool :=
  match e with SkipAll => true | _ => false end.

Definition errorString (e : error) : string :=
  match e with
  | SkipDir => "skip this directory"
  | SkipAll => "skip everything and stop the walk"
  | Err msg => msg
  end.

(** What the process does to the outside, in order.  Live lines and the
    summary carry their data, not their colours. *)
Inductive Event :=
| EHeader
| EPrintln
| EClearLine
| EInfo (msg : string)
| ESuccess (msg : string)
| EWarning (msg : string)
| EError (msg : string)
| ELiveDirectory (path : string)
| ELiveScanning (path : string) (scanned : Z)
| ELiveMatch (path : string) (found : Z)
| ESummary (scanned found : Z)
| ETable (rows : list (string * string * string * string))
| ECreate (filename : string) (failure : option error)
| EEncodeJSON (filename : string) (results : list FileResult)
| EFprintln (filename : string) (line : string).

(** The package-level variables and the output produced so far. *)
Record World := {
  scannedCount : Z;
  matchCount : Z;
  showLive : bool;
  trace : list Event
}.

Definition wrap64 (n : Z) : Z := (n + 2 ^ 63) mod 2 ^ 64 - 2 ^ 63.

Definition emit (e : Event) (w : World) : World :=
  {| scannedCount := scannedCount w; matchCount := matchCount w;
     showLive := showLive w; trace := trace w ++ [e] |}.

(** [scannedCount++] *)
Definition incScanned (w : World) : World :=
  {| scannedCount := wrap64 (scannedCount w + 1); matchCount := matchCount w;
     showLive := showLive w; trace := trace w |}.

(** [matchCount++] *)
Definition incMatch (w : World) : World :=
  {| scannedCount := scannedCount w; matchCount := wrap64 (matchCount w + 1);
     showLive := showLive w; trace := trace w |}.

Definition whenLive (e : World -> Event) (w : World) : World :=
  if showLive w then emit (e w) w else w.

(** [os.DirEntry], with what the system answers for it: [Info()] for a file
    ([None] when it fails), [os.ReadDir] for a directory (the entries read
    and the error, if any). *)
Inductive DirEntry :=
| File (name : string) (info : option FileInfo)
| Directory (name : string) (entries : list DirEntry) (readErr : option error).

Definition entryName (d : DirEntry) : string :=
  match d with File n _ => n | Directory n _ _ => n end.

Definition IsDir (d : DirEntry) : bool :=
  match d with File _ _ => false | Directory _ _ _ => true end.

(** The file system as the run sees it at [config.Dir]. *)
Record FileSystem := {
  (** [os.IsNotExist(err)] for [os.Stat(config.Dir)] *)
  statNotExist : bool;
  (** [os.Lstat(config.Dir)]: the entry, or the error *)
  rootEntry : DirEntry + error;
  (** [os.Create(filename)]: the error, if any *)
  createFails : string -> option error
}.

(** [os.ReadDir(config.Dir)] *)
Definition ReadDir (fs : FileSystem) : list DirEntry * option error :=
  match rootEntry fs with
  | inl (Directory _ entries readErr) => (entries, readErr)
  | inl (File _ _) => ([], Some (Err "not a directory"))
  | inr e => ([], Some e)
  end.

(** What [filepath.WalkDir] hands to its function: an entry with a nil
    error, or an error (with the directory whose [ReadDir] failed, or no
    entry when [Lstat] of the root failed). *)
Inductive WalkArg :=
| Visit (d : DirEntry)
| Failed (d : option DirEntry) (err : error).

Section Traversal.
Context `{Platform}.

Definition buildResult (dir : string) (info : FileInfo) : FileResult :=
  {| rName := Name info;
     rPath := Join dir (Name info);
     rLastModified := Format (ModTime info);
     rModTimeRaw := ModTime info;
     rSize := Size info |}.

(** The body of the loop of [scanFlat]. *)
Definition scanFlat_body (c : Config) (exts : gmap string bool)
    (st : list FileResult * World) (entry : DirEntry) : list FileResult * World :=
  let '(results, w) := st in
  let w := incScanned w in
  match entry with
  | Directory _ _ _ => (results, w)
  | File name None => (results, w)
  | File name (Some info) =>
      let w := whenLive (fun w => ELiveScanning (Join (cDir c) name) (scannedCount w)) w in
      if isMatch info c exts then
        let w := incMatch w in
        let w := whenLive (fun w => ELiveMatch (Join (cDir c) name) (matchCount w)) w in
        (results ++ [buildResult (cDir c) info], w)
      else (results, w)
  end.

(** [scanFlat]: only looks at the top directory. *)
Definition scanFlat (c : Config) (exts : gmap string bool) (fs : FileSystem)
    (w : World) : list FileResult * option error * World :=
  match ReadDir fs with
  | (_, Some err) => ([], Some err, w)
  | (entries, None) =>
      let '(results, w') := foldl (scanFlat_body c exts) ([], w) entries in
      (results, None, w')
  end.

(** The loop of [filepath.walkDir] over the entries of a directory, [walk]
    being [walkDir] itself: [SkipDir] from an entry leaves the loop, any
    other error is returned. *)
Fixpoint walkDir_loop {S : Type} (walk : string -> DirEntry -> S -> option error * S)
    (path : string) (dirs : list DirEntry) (s : S) : option error * S :=
  match dirs with
  | [] => (None, s)
  | d1 :: rest =>
      match walk (Join path (entryName d1)) d1 s with
      | (Some e, s') => if isSkipDir e then (None, s') else (Some e, s')
      | (None, s') => walkDir_loop walk path rest s'
      end
  end.

(** [filepath.walkDir] *)
Fixpoint walkDir {S : Type} (fn : string -> WalkArg -> S -> option error * S)
    (path : string) (d : DirEntry) (s : S) {struct d} : option error * S :=
  match d with
  | File _ _ => fn path (Visit d) s
  | Directory _ dirs readErr =>
      match fn path (Visit d) s with
      | (Some e, s') => (if isSkipDir e then None else Some e, s')
      | (None, s') =>
          match readErr with
          | Some re =>
              match fn path (Failed (Some d) re) s' with
              | (Some e, s'') => (if isSkipDir e then None else Some e, s'')
              | (None, s'') => walkDir_loop (walkDir fn) path dirs s''
              end
          | None => walkDir_loop (walkDir fn) path dirs s'
          end
      end
  end.

(** [filepath.WalkDir] *)
Definition WalkDir {S : Type} (fs : FileSystem) (root : string)
    (fn : string -> WalkArg -> S -> option error * S) (s : S) : option error * S :=
  let '(err, s') :=
    match rootEntry fs with
    | inr e => fn root (Failed None e) s
    | inl d => walkDir fn root d s
    end in
  match err with
  | Some e => (if isSkipDir e || isSkipAll e then None else Some e, s')
  | None => (None, s')
  end.

(** The function [scanRecursive] passes to [filepath.WalkDir]. *)
Definition scanRecursive_fn (c : Config) (exts : gmap string bool)
    (path : string) (a : WalkArg) (st : list FileResult * World)
    : option error * (list FileResult * World) :=
  let '(results, w) := st in
  match a with
  | Failed _ _ => (Some SkipDir, st)
  | Visit (Directory _ _ _) => (None, (results, whenLive (fun _ => ELiveDirectory path) w))
  | Visit (File _ info) =>
      let w := incScanned w in
      match info with
      | None => (None, (results, w))
      | Some info =>
          let w :=
            if showLive w && (Z.rem (scannedCount w) 50 =? 0)
            then emit (ELiveScanning path (scannedCount w)) w else w in
          if isMatch info c exts then
            let w := incMatch w in
            let w := whenLive (fun w => ELiveMatch path (matchCount w)) w in
            (None, (results ++ [buildResult (Dir path) info], w))
          else (None, (results, w))
      end
  end.

(** [scanRecursive]: uses [filepath.WalkDir] for depth-first traversal. *)
Definition scanRecursive (c : Config) (exts : gmap string bool) (fs : FileSystem)
    (w : World) : list FileResult * option error * World :=
  let '(err, (results, w')) := WalkDir fs (cDir c) (scanRecursive_fn c exts) ([], w) in
  (results, err, w').

End Traversal.

(** ** Output and [main] *)

Section Main.
Context `{Platform}.

Definition generateFilename (prefix exts suffix : string) : string :=
  let extPart :=
    if negb (String.eqb exts "") then ReplaceAll exts "," "_" else "all"%string in
  prefix +:+ "_" +:+ extPart +:+ "." +:+ suffix.

Definition printTabular (results : list FileResult) (w : World) : World :=
  let w := emit EPrintln w in
  let w := emit (ESuccess "Search Results:") w in
  let w := emit EPrintln w in
  let w :=
    emit (ETable (map (fun r => (rLastModified r, formatSize (rSize r), rName r, rPath r))
                      results)) w in
  emit EPrintln w.

Definition saveJSON (results : list FileResult) (exts : string)
    (fs : FileSystem) (w : World) : World :=
  let filename := generateFilename "output" exts "json" in
  let w := emit (ECreate filename (createFails fs filename)) w in
  match createFails fs filename with
  | Some err => emit (EError ("Error creating file: " +:+ errorString err)) w
  | None =>
      let w := emit (EEncodeJSON filename results) w in
      emit (ESuccess ("JSON saved to: " +:+ filename)) w
  end.

Definition markdownRow (r : FileResult) : string :=
  let safePath := ReplaceAll (rPath r) "|" "\|" in
  "| " +:+ rLastModified r +:+ " | " +:+ formatSize (rSize r) +:+ " | " +:+
  rName r +:+ " | " +:+ safePath +:+ " |".

(** The line with the generation time is left out, since it prints the
    clock, and so is the emoji of the title. *)
Definition saveMarkdown (results : list FileResult) (exts : string)
    (fs : FileSystem) (w : World) : World :=
  let filename := generateFilename "output" exts "md" in
  let w := emit (ECreate filename (createFails fs filename)) w in
  match createFails fs filename with
  | Some err => emit (EError ("Error creating file: " +:+ errorString err)) w
  | None =>
      let w := emit (EFprintln filename "# File Search Results") w in
      let w :=
        emit (EFprintln filename
                ("**Total Files Found:** " +:+
                 Sprint_d (Z.of_nat (length results)) +:+
                 String (byte 10) EmptyString)) w in
      let w := emit (EFprintln filename "| Last Modified | Size | File Name | Full Path |") w in
      let w := emit (EFprintln filename "|---|---|---|---|") w in
      let w := foldl (fun w r => emit (EFprintln filename (markdownRow r)) w) w results in
      emit (ESuccess ("Markdown saved to: " +:+ filename)) w
  end.

(** [handleOutput] routes to specific formatters. *)
Definition handleOutput (results : list FileResult) (c : Config)
    (fs : FileSystem) (w : World) : World :=
  let format := ToLower (OutputFormat c) in
  if String.eqb format "json" then saveJSON results (Extensions c) fs w
  else if String.eqb format "md" then saveMarkdown results (Extensions c) fs w
  else printTabular results w.

Definition printDateFilter (c : Config) (w : World) : World :=
  if negb (String.eqb (AllDate c) "") then
    emit (EInfo ("Date Filter: Exact match for " +:+ AllDate c)) w
  else
    let parts := [] in
    let parts := if negb (Day c =? 0) then parts ++ ["Day=" +:+ Sprint_d (Day c)] else parts in
    let parts := if negb (Month c =? 0) then parts ++ ["Month=" +:+ Sprint_d (Month c)] else parts in
    let parts := if negb (Year c =? 0) then parts ++ ["Year=" +:+ Sprint_d (Year c)] else parts in
    if (0 <? length parts)%nat
    then emit (EInfo ("Date Filter: " +:+ String.concat ", " parts)) w
    else w.

(** The lines [main] prints between the directory check and the scan. *)
Definition announce (config : Config) (w : World) : World :=
  let w := emit EHeader w in
  let w := emit (EInfo ("Target: " +:+ cDir config)) w in
  let w :=
    if Recursive config
    then emit (EInfo "Mode: Deep Scan (Recursive Traversal)") w
    else emit (EInfo "Mode: Flat Scan (Current Folder Only)") w in
  let w :=
    if negb (String.eqb (Extensions config) "")
    then emit (EInfo ("Filter: " +:+ Extensions config +:+ " files")) w
    else w in
  let w := printDateFilter config w in
  emit EPrintln w.

(** Step 4 of [main]: run the search. *)
Definition runSearch (config : Config) (exts : gmap string bool)
    (fs : FileSystem) (w : World) : list FileResult * option error * World :=
  if Recursive config
  then scanRecursive config exts fs w
  else scanFlat config exts fs w.

(** The package-level variables when [main] starts, [showLive] set. *)
Definition initialWorld (config : Config) : World :=
  {| scannedCount := 0; matchCount := 0;
     showLive := String.eqb (OutputFormat config) "json"
                 || String.eqb (OutputFormat config) "md";
     trace := [] |}.

(** [main], from the parsed flags on: the exit status and the final state. *)
Definition main (config : Config) (fs : FileSystem) : Z * World :=
  let w := initialWorld config in
  if statNotExist fs then
    (1, emit (EError ("Directory '" +:+ cDir config +:+ "' does not exist.")) w)
  else
    let exts := allowedExts (Extensions config) in
    let w := announce config w in
    let '(results, err, w) := runSearch config exts fs w in
    match err with
    | Some e =>
        let w := whenLive (fun _ => EClearLine) w in
        (1, emit (EError ("Error scanning: " +:+ errorString e)) w)
    | None =>
        let w := whenLive (fun _ => EClearLine) w in
        let w := emit (ESummary (scannedCount w) (Z.of_nat (length results))) w in
        if (length results =? 0)%nat then
          (0, emit (EWarning "No files found matching your criteria.") w)
        else (0, handleOutput results config fs w)
    end.

End Main.

(** ** A concrete platform for running examples

    A Unix system: the separator is the slash.  [Join] and [Dir] are given
    for paths that are already clean, and the Unicode paths return their
    argument; the examples below only use ASCII strings and clean paths. *)

Fixpoint dirOf (s : string) : string :=
  match s with
  | EmptyString => EmptyString
  | String c s' =>
      if existsb (fun x => code x =? 47) (bytes s') then String c (dirOf s')
      else EmptyString
  end.

#[export] Instance unix : Platform := {|
  Map_unicode_ToLower := fun s => s;
  TrimFunc_IsSpace := fun s => s;
  TrimRightFunc_IsSpace := fun s => s;
  IsPathSeparator := fun c => code c =? 47;
  Join := fun dir name =>
    if String.eqb dir "" then name else dir +:+ "/" +:+ name;
  Dir := fun path =>
    if String.eqb (dirOf path) "" then "."%string else dirOf path
|}.

(** ** Vocabulary of the statements *)

Definition withDate (c : Config) (day month year : Z) : Config :=
  {| cDir := cDir c; Day := day; Month := month; Year := year;
     AllDate := AllDate c; Recursive := Recursive c;
     Extensions := Extensions c; OutputFormat := OutputFormat c |}.

Definition withAllDate (c : Config) (all : string) : Config :=
  {| cDir := cDir c; Day := Day c; Month := Month c; Year := Year c;
     AllDate := all; Recursive := Recursive c;
     Extensions := Extensions c; OutputFormat := OutputFormat c |}.

(** A combined date that is present and well formed: exactly three
    components, each a syntactically valid integer; its value as
    (day, month, year). *)
Definition wellFormedDate (all : string) : option (Z * Z * Z) :=
  if String.eqb all "" then None
  else
    match Split all "/" with
    | [p0; p1; p2] =>
        match Atoi p0, Atoi p1, Atoi p2 with
        | (dd, None), (mm, None), (yy, None) => Some (dd, mm, yy)
        | _, _, _ => None
        end
    | _ => None
    end.

(** The combined date splits into exactly three components. *)
Definition threeParts (all : string) : bool :=
  negb (String.eqb all "") && (length (Split all "/") =? 3)%nat.

(** The numbers [isMatch] reads from a combined date, errors dropped. *)
Definition requested (all : string) : Z * Z * Z :=
  let parts := Split all "/" in
  (fst (Atoi (nth 0 parts "")), fst (Atoi (nth 1 parts "")),
   fst (Atoi (nth 2 parts ""))).

(** The extension step of [isMatch] lets the file through. *)
Definition extensionPasses `{Platform} (info : FileInfo) (exts : gmap string bool) : Prop :=
  size exts = 0%nat \/ mapIndex exts (ToLower (Ext (Name info))) = true.

(** ** Data for the examples: the scenario of the specification *)

Definition jan15 : Time :=
  {| tYear := 2024; tMonth := 1; tDay := 15; tHour := 10; tMinute := 30; tSecond := 0 |}.

Definition jun01 : Time :=
  {| tYear := 2023; tMonth := 6; tDay := 1; tHour := 8; tMinute := 0; tSecond := 0 |}.

Definition info_a_go : FileInfo := {| Name := "a.go"; Size := 1536; ModTime := jan15 |}.
Definition info_b_py : FileInfo := {| Name := "b.py"; Size := 20; ModTime := jun01 |}.
Definition info_c_go : FileInfo := {| Name := "c.go"; Size := 1048576; ModTime := jan15 |}.

(** A configuration for the directory [d]. *)
Definition config (all : string) (day month year : Z) (recursive : bool)
    (extensions format : string) : Config :=
  {| cDir := "d"; Day := day; Month := month; Year := year; AllDate := all;
     Recursive := recursive; Extensions := extensions; OutputFormat := format |}.

(** An ASCII string without upper-case letters. *)
Definition lowerASCII (s : string) : Prop :=
  isASCII s = true /\ existsb isUpper (bytes s) = false.

(** A string that both loops of [strings.TrimSpace] leave as it is. *)
Definition trimmed (s : string) : Prop :=
  TrimSpace_start s = (false, s) /\ TrimSpace_stop s = (false, s).

(** The units of the size column, as the specification names them. *)
Inductive SizeUnit := UnitB | UnitKB | UnitMB | UnitGB.

Definition unitSize (u : SizeUnit) : Z :=
  match u with
  | UnitB => 1
  | UnitKB => 1024
  | UnitMB => 1024 * 1024
  | UnitGB => 1024 * 1024 * 1024
  end.

Definition unitName (u : SizeUnit) : string :=
  match u with
  | UnitB => "B"
  | UnitKB => "KB"
  | UnitMB => "MB"
  | UnitGB => "GB"
  end.

(** A unit applies to a byte count that reaches its threshold; bytes always
    apply. *)
Definition applicable (u : SizeUnit) (bytes : Z) : Prop :=
  u = UnitB \/ unitSize u <= bytes.

(** The rendering in a unit: the bare integer for bytes, and for the others
    a number of hundredths [v] printed with two decimals. *)
Definition rendered (u : SizeUnit) (bytes v : Z) : string :=
  match u with
  | UnitB => Sprint_d bytes +:+ " B"
  | _ => Sprint_d (v / 100) +:+ "." +:+ appendInt (v mod 100) 2
         +:+ " " +:+ unitName u
  end.

(** The token of the extension filter in a file name: the filter with each
    comma turned into an underscore, or "all" without a filter. *)
Definition commaToUnderscore (c : ascii) : ascii :=
  if code c =? 44 then "_"%char else c.

Definition extToken (exts : string) : string :=
  if String.eqb exts "" then "all"%string else mapBytes commaToUnderscore exts.

(** The files a run creates, or tries to, in order. *)
Definition createdFiles (t : list Event) : list string :=
  flat_map (fun e => match e with ECreate f _ => [f] | _ => [] end) t.

(** The events of the result formatters. *)
Definition isFormatterEvent (e : Event) : bool :=
  match e with
  | ETable _ | ECreate _ _ | EEncodeJSON _ _ | EFprintln _ _ => true
  | _ => false
  end.

Section TraversalVocabulary.
Context `{Platform}.

(** What a deep scan reports below an entry met at [path]: the matching
    files in traversal order; a directory that cannot be read contributes
    nothing. *)
Fixpoint deepMatches (c : Config) (exts : gmap string bool) (path : string)
    (d : DirEntry) : list FileResult :=
  match d with
  | File _ None => []
  | File _ (Some info) =>
      if isMatch info c exts then [buildResult (Dir path) info] else []
  | Directory _ _ (Some _) => []
  | Directory _ ds None =>
      flat_map (fun d1 => deepMatches c exts (Join path (entryName d1)) d1) ds
  end.

Definition deepMatchesIn (c : Config) (exts : gmap string bool) (path : string)
    (ds : list DirEntry) : list FileResult :=
  flat_map (fun d1 => deepMatches c exts (Join path (entryName d1)) d1) ds.

End TraversalVocabulary.

(** The entries a deep scan meets that are not directories, below an entry:
    every file, with readable metadata or not, outside the directories that
    cannot be read. *)
Fixpoint visitedFiles (d : DirEntry) : Z :=
  match d with
  | File _ _ => 1
  | Directory _ _ (Some _) => 0
  | Directory _ ds None => fold_right (fun d1 n => visitedFiles d1 + n) 0 ds
  end.

Definition visitedFilesIn (ds : list DirEntry) : Z :=
  fold_right (fun d1 n => visitedFiles d1 + n) 0 ds.

(** The values of a Go [int]. *)
Definition isInt64 (n : Z) : Prop := - 2 ^ 63 <= n < 2 ^ 63.

(** No result formatter has run so far. *)
Definition quiet (w : World) : Prop :=
  Forall (fun e => isFormatterEvent e = false) (trace w).

(** One step of a scan on the counters and the output: the scanned count
    moves by [n], [showLive] stays, and no formatter event is added. *)
Definition scanStep (n : Z) (w w' : World) : Prop :=
  scannedCount w' = wrap64 (scannedCount w + n)
  /\ showLive w' = showLive w
  /\ (quiet w -> quiet w').

Section WalkVocabulary.
Context `{Platform}.

(** The walk below an entry: it never returns an error, it appends the
    matching files in order, and it counts the files met. *)
Definition walkSpec (c : Config) (exts : gmap string bool) (d : DirEntry) : Prop :=
  forall path results w,
    isInt64 (scannedCount w) ->
    exists w',
      walkDir (scanRecursive_fn c exts) path d (results, w)
      = (None, (results ++ deepMatches c exts path d, w'))
      /\ scanStep (visitedFiles d) w w'.

End WalkVocabulary.

(** Case analysis over the 256 bytes. *)
Ltac all_bytes c :=
  destruct c as [[] [] [] [] [] [] [] []]; vm_compute;
  repeat split; try reflexivity; try discriminate.

(** The tree of the scenario, with a directory that cannot be read and a
    file whose metadata cannot be read. *)
Definition scenarioTree : DirEntry :=
  Directory "d"
    [ File "a.go" (Some info_a_go);
      File "b.py" (Some info_b_py);
      Directory "locked" [File "z.go" (Some info_a_go)] (Some (Err "permission denied"));
      File "gone.go" None;
      Directory "sub" [File "c.go" (Some info_c_go)] None ]
    None.

(** The same tree without the directory that cannot be read. *)
Definition scenarioPruned : DirEntry :=
  Directory "d"
    [ File "a.go" (Some info_a_go);
      File "b.py" (Some info_b_py);
      File "gone.go" None;
      Directory "sub" [File "c.go" (Some info_c_go)] None ]
    None.

Definition fileSystem (root : DirEntry) : FileSystem :=
  {| statNotExist := false; rootEntry := inl root; createFails := fun _ => None |}.

(** ** Vocabulary of extension normalization on every string *)

(** Trimming by the words of the specification, for the ASCII spaces:
    [trimLeftASCII] drops them at the front, [trimRightASCII] at the end. *)
Fixpoint trimLeftASCII (s : string) : string :=
  match s with
  | EmptyString => EmptyString
  | String c s' => if asciiSpace c then trimLeftASCII s' else s
  end.

Fixpoint trimRightASCII (s : string) : string :=
  match s with
  | EmptyString => EmptyString
  | String c s' =>
      match trimRightASCII s' with
      | EmptyString => if asciiSpace c then EmptyString else String c EmptyString
      | r => String c r
      end
  end.

(** Prefixed with a dot if not already dotted. *)
Definition dotted (s : string) : string :=
  if HasPrefix s "." then s else "." +:+ s.

(** The entry as the specification words it: trimmed of whitespace,
    lower-cased, dotted. *)
Definition normalizedEntry (p : string) : string :=
  dotted (mapBytes lowerByte (trimRightASCII (trimLeftASCII p))).

(** What is taken for granted of the Unicode paths of [strings.ToLower] and
    [strings.TrimSpace], which run on the tables of package [unicode]: on a
    string with a non-ASCII byte, lower-casing twice is lower-casing once,
    lower-casing a trimmed string leaves it trimmed, and a dot in front
    changes neither what is lower-case nor what is trimmed.  On ASCII strings
    the four facts are proved from the code of the two functions. *)
Record UnicodeLaws `{Platform} : Prop := {
  lower_lower :
    forall s, isASCII s = false -> ToLower (ToLower s) = ToLower s;
  lower_keeps_trimmed :
    forall s, isASCII s = false ->
      TrimSpace (ToLower (TrimSpace s)) = ToLower (TrimSpace s);
  lower_after_dot :
    forall s, isASCII s = false -> ToLower s = s ->
      ToLower ("." +:+ s) = "." +:+ s;
  trimmed_after_dot :
    forall s, isASCII s = false -> TrimSpace s = s ->
      TrimSpace ("." +:+ s) = "." +:+ s
}.

(** A platform for text whose non-ASCII characters have no case and are not
    spaces, such as CJK text: there Go's Unicode paths lower the ASCII
    letters and trim the ASCII spaces only. *)
Definition caseless : Platform := {|
  Map_unicode_ToLower := mapBytes lowerByte;
  TrimFunc_IsSpace := fun s => trimRightASCII (trimLeftASCII s);
  TrimRightFunc_IsSpace := trimRightASCII;
  IsPathSeparator := fun c => code c =? 47;
  Join := fun dir name =>
    if String.eqb dir "" then name else dir +:+ "/" +:+ name;
  Dir := fun path =>
    if String.eqb (dirOf path) "" then "."%string else dirOf path
|}.

(** An extension list with spaces, capitals and a Japanese entry (the three
    bytes of its first character written out). *)
Definition mixedExtensions : string :=
  " Go," +:+ String (byte 227) (String (byte 129) (String (byte 130) ".TXT")) +:+ ", .py ".

(** A result whose path holds a pipe. *)
Definition pipedResult : FileResult :=
  {| rName := "a.go"; rPath := "d|x/a.go"; rLastModified := Format jan15;
     rModTimeRaw := jan15; rSize := 1536 |}.

(** In a Markdown cell: each pipe written after a backslash. *)
Fixpoint escapePipes (s : string) : string :=
  match s with
  | EmptyString => EmptyString
  | String c s' =>
      if code c =? 124
      then String "\"%char (String "|"%char (escapePipes s'))
      else String c (escapePipes s')
  end.

(** The row of a result in the Markdown table, its path cell escaped. *)
Definition escapedRow (r : FileResult) : string :=
  "| " +:+ rLastModified r +:+ " | " +:+ formatSize (rSize r) +:+ " | " +:+
  rName r +:+ " | " +:+ escapePipes (rPath r) +:+ " |".

(** ** Vocabulary of the further properties *)

(** [s[n:]] and [s[:n]] on bytes. *)
Fixpoint dropBytes (n : nat) (s : string) : string :=
  match n, s with
  | O, _ => s
  | S k, String _ s' => dropBytes k s'
  | S _, EmptyString => EmptyString
  end.

Fixpoint takeBytes (n : nat) (s : string) : string :=
  match n, s with
  | O, _ => EmptyString
  | S k, String c s' => String c (takeBytes k s')
  | S _, EmptyString => EmptyString
  end.

(** [printLiveDirectory]: the path it shows, long paths cut at the front. *)
Definition printLiveDirectory_displayPath (path : string) : string :=
  if (60 <? String.length path)%nat
  then "..." +:+ dropBytes (String.length path - 57) path
  else path.

(** [printLiveScanning] and [printLiveMatch]: the name they show, given
    [filepath.Base(path)]; long names are cut at the end. *)
Definition printLive_displayPath (base : string) : string :=
  if (40 <? String.length base)%nat
  then takeBytes 37 base +:+ "..."
  else base.

(** Every pipe of [s] comes right after a backslash; [prev] tells whether
    the byte before [s] was a backslash. *)
Fixpoint pipesEscaped (prev : bool) (s : string) : bool :=
  match s with
  | EmptyString => true
  | String c s' =>
      (if code c =? 124 then prev else true) && pipesEscaped (code c =? 92) s'
  end.

(** The configuration with every date filter taken away. *)
Definition noDateFilter (c : Config) : Config := withAllDate (withDate c 0 0 0) "".

(** A checking line of the deep scan is due only at every 50th file. *)
Definition throttled (e : Event) : bool :=
  match e with
  | ELiveScanning _ n => Z.rem n 50 =? 0
  | _ => true
  end.

(** The output of [st] is that of [w0] followed by throttled lines. *)
Definition throttledSince (w0 : World) (st : list FileResult * World) : Prop :=
  exists evs,
    trace (snd st) = trace w0 ++ evs /\ Forall (fun e => throttled e = true) evs.

(** Further data for the examples. *)
Definition info_readme : FileInfo := {| Name := "README"; Size := 7; ModTime := jan15 |}.

(** A target whose status cannot be read. *)
Definition lockedSystem : FileSystem :=
  {| statNotExist := false; rootEntry := inr (Err "permission denied");
     createFails := fun _ => None |}.

(** The scenario in a working directory where no file can be created. *)
Definition readOnlySystem : FileSystem :=
  {| statNotExist := false; rootEntry := inl scenarioTree;
     createFails := fun _ => Some (Err "read-only file system") |}.

(** The found counter and the result list move together. *)
Definition foundInStep (k : Z) (st : list FileResult * World) : Prop :=
  isInt64 (matchCount (snd st))
  /\ wrap64 (matchCount (snd st) - Z.of_nat (length (fst st))) = k.

(** The search stays silent: no live line is wanted and the output is [t]. *)
Definition silentAt (t : list Event) (st : list FileResult * World) : Prop :=
  showLive (snd st) = false /\ trace (snd st) = t.

Section FurtherVocabulary.
Context `{Platform}.

(** What a flat scan reports for a listing: the matching files among the
    entries themselves, in order. *)
Definition flatMatches (c : Config) (exts : gmap string bool)
    (entries : list DirEntry) : list FileResult :=
  flat_map
    (fun entry =>
       match entry with
       | File _ (Some info) =>
           if isMatch info c exts then [buildResult (cDir c) info] else []
       | _ => []
       end) entries.

(** [Reachable path d p info]: the walk of the entry [d], met at [path],
    meets at [p] a file with the metadata [info]; it goes through readable
    directories only. *)
Inductive Reachable : string -> DirEntry -> string -> FileInfo -> Prop :=
| reach_file path name info :
    Reachable path (File name (Some info)) path info
| reach_dir path name ds d p info :
    In d ds ->
    Reachable (Join path (entryName d)) d p info ->
    Reachable path (Directory name ds None) p info.

End FurtherVocabulary.

(** * Properties *)

(** ** The match predicate *)

Section MatchFacts.
Context `{Platform}.

Lemma extensionPasses_guard info exts :
  extensionPasses info exts ->
  (0 <? size exts)%nat && negb (mapIndex exts (ToLower (Ext (Name info)))) = false.
Proof.
  intros [Hsz | Hin].
  - rewrite Hsz. reflexivity.
  - rewrite Hin. simpl. apply andb_false_r.
Qed.

(** With three components the decision is the comparison with the numbers
    read, whatever the independent fields hold. *)
Lemma isMatch_threeParts info c exts :
  extensionPasses info exts ->
  threeParts (AllDate c) = true ->
  isMatch info c exts =
    let '(dd, mm, yy) := requested (AllDate c) in
    (dd =? tDay (ModTime info)) && (mm =? tMonth (ModTime info))
    && (yy =? tYear (ModTime info)).
Proof.
  intros Hext Hthree. unfold isMatch, requested.
  rewrite (extensionPasses_guard _ _ Hext). simpl.
  unfold threeParts in Hthree. rewrite Hthree.
  destruct (_ =? tDay _), (_ =? tMonth _), (_ =? tYear _); reflexivity.
Qed.

(** Without three components the independent fields decide. *)
Lemma isMatch_partial info c exts :
  extensionPasses info exts ->
  threeParts (AllDate c) = false ->
  isMatch info c exts =
    ((Year c =? 0) || (Year c =? tYear (ModTime info)))
    && ((Month c =? 0) || (Month c =? tMonth (ModTime info)))
    && ((Day c =? 0) || (Day c =? tDay (ModTime info))).
Proof.
  intros Hext Hthree. unfold isMatch.
  rewrite (extensionPasses_guard _ _ Hext). simpl.
  unfold threeParts in Hthree. rewrite Hthree.
  destruct (Year c =? 0), (Year c =? tYear _), (Month c =? 0),
    (Month c =? tMonth _), (Day c =? 0), (Day c =? tDay _); reflexivity.
Qed.

Lemma wellFormedDate_threeParts all v :
  wellFormedDate all = Some v -> threeParts all = true /\ requested all = v.
Proof.
  unfold wellFormedDate, threeParts, requested.
  destruct (String.eqb all ""); [discriminate |].
  destruct (Split all "/") as [| p0 [| p1 [| p2 [| p3 l]]]]; try discriminate.
  simpl.
  destruct (Atoi p0) as [dd [e0 |]]; try discriminate.
  destruct (Atoi p1) as [mm [e1 |]]; try discriminate.
  destruct (Atoi p2) as [yy [e2 |]]; try discriminate.
  intros [= <-]. split; reflexivity.
Qed.

End MatchFacts.

Section MatchClaims.
Context `{Platform}.

(** C1. When the combined exact-date filter is present and well formed
    (three components, all valid integers), a file that passes the extension
    step is accepted if and only if its modification day, month and year
    equal the three components; a mismatch in any component rejects; and the
    independent day, month and year fields never change the result. *)
Theorem exact_date_sole_criterion info c exts dd mm yy :
  extensionPasses info exts ->
  wellFormedDate (AllDate c) = Some (dd, mm, yy) ->
  (isMatch info c exts = true <->
     tDay (ModTime info) = dd /\ tMonth (ModTime info) = mm
     /\ tYear (ModTime info) = yy)
  /\ (tDay (ModTime info) <> dd \/ tMonth (ModTime info) <> mm
      \/ tYear (ModTime info) <> yy -> isMatch info c exts = false)
  /\ (forall day month year,
        isMatch info (withDate c day month year) exts = isMatch info c exts).
Proof.
  intros Hext Hwf.
  destruct (wellFormedDate_threeParts _ _ Hwf) as [Hthree Hreq].
  assert (Hval : forall c', AllDate c' = AllDate c ->
            isMatch info c' exts =
            (dd =? tDay (ModTime info)) && (mm =? tMonth (ModTime info))
            && (yy =? tYear (ModTime info))).
  { intros c' Hall. rewrite isMatch_threeParts by (rewrite ?Hall; assumption).
    rewrite Hall, Hreq. reflexivity. }
  split; [| split].
  - rewrite (Hval c eq_refl), !andb_true_iff, !Z.eqb_eq. intuition congruence.
  - intros Hne. rewrite (Hval c eq_refl).
    apply not_true_is_false. rewrite !andb_true_iff, !Z.eqb_eq.
    intuition congruence.
  - intros day month year. rewrite (Hval c eq_refl). apply Hval. reflexivity.
Qed.

(** C2, amended.  A combined date that is present governs the date decision
    exactly when it splits at the slashes into three components, valid
    integers or not: the file is then compared with the numbers
    [strconv.Atoi] returns for them, its errors dropped.  When it does not
    split into three components it is ignored and the independent fields
    decide.  [isMatch] returns a boolean: no error is reported either way. *)
Theorem allDate_governs_iff_three_parts info c exts :
  extensionPasses info exts ->
  AllDate c <> ""%string ->
  (length (Split (AllDate c) "/") = 3%nat ->
     (isMatch info c exts = true <->
        (fst (Atoi (nth 0 (Split (AllDate c) "/") "")) = tDay (ModTime info)
         /\ fst (Atoi (nth 1 (Split (AllDate c) "/") "")) = tMonth (ModTime info)
         /\ fst (Atoi (nth 2 (Split (AllDate c) "/") "")) = tYear (ModTime info)))
     /\ forall day month year,
          isMatch info (withDate c day month year) exts = isMatch info c exts)
  /\ (length (Split (AllDate c) "/") <> 3%nat ->
      isMatch info c exts = isMatch info (withAllDate c "") exts).
Proof.
  intros Hext Hne.
  assert (Hpresent : String.eqb (AllDate c) "" = false)
    by (apply String.eqb_neq; assumption).
  split.
  - intros Hlen.
    assert (Hthree : threeParts (AllDate c) = true).
    { unfold threeParts. rewrite Hpresent, Hlen. reflexivity. }
    split.
    + rewrite isMatch_threeParts by assumption. unfold requested.
      rewrite !andb_true_iff, !Z.eqb_eq. tauto.
    + intros day month year.
      rewrite !isMatch_threeParts by assumption. reflexivity.
  - intros Hlen.
    assert (Hthree : threeParts (AllDate c) = false).
    { unfold threeParts. rewrite Hpresent. simpl.
      apply Nat.eqb_neq. assumption. }
    rewrite !isMatch_partial by (assumption || reflexivity). reflexivity.
Qed.

(** C3. With a non-empty extension set, a file whose lower-cased extension
    is not a member is rejected, whatever the dates of the file and of the
    configuration. *)
Theorem extension_not_member_rejects info c (exts : gmap string bool) :
  (0 < size exts)%nat ->
  ToLower (Ext (Name info)) ∉ dom exts ->
  isMatch info c exts = false.
Proof.
  intros Hsize Hnot. unfold isMatch, mapIndex.
  apply not_elem_of_dom in Hnot. rewrite Hnot. simpl.
  destruct (0 <? size exts)%nat eqn:E; [reflexivity |].
  apply Nat.ltb_ge in E. lia.
Qed.

(** C4, amended.  When the combined date is absent, or does not split at the
    slashes into exactly three components, a file that passes the extension
    step is accepted if and only if each of the year, month and day filters
    is zero or equals the field of the modification date; when all three are
    zero the file is accepted. *)
Theorem partial_filters_conjunction info c exts :
  extensionPasses info exts ->
  AllDate c = ""%string \/ length (Split (AllDate c) "/") <> 3%nat ->
  (isMatch info c exts = true <->
     (Year c = 0 \/ Year c = tYear (ModTime info))
     /\ (Month c = 0 \/ Month c = tMonth (ModTime info))
     /\ (Day c = 0 \/ Day c = tDay (ModTime info)))
  /\ (Year c = 0 -> Month c = 0 -> Day c = 0 -> isMatch info c exts = true).
Proof.
  intros Hext Hall.
  assert (Hthree : threeParts (AllDate c) = false).
  { unfold threeParts. destruct Hall as [-> | Hlen]; [reflexivity |].
    apply andb_false_iff. right. apply Nat.eqb_neq. assumption. }
  rewrite isMatch_partial by assumption.
  split.
  - rewrite !andb_true_iff, !orb_true_iff, !Z.eqb_eq. tauto.
  - intros -> -> ->. reflexivity.
Qed.

End MatchClaims.

(** C1 at the scenario: the filter 15/1/2024 and the file [a.go], with
    independent fields that name another date. *)
Lemma exact_date_sole_criterion_witness :
  (isMatch info_a_go (config "15/1/2024" 3 3 1999 false "" "tabular") ∅ = true <->
     tDay jan15 = 15 /\ tMonth jan15 = 1 /\ tYear jan15 = 2024)
  /\ (tDay jan15 <> 15 \/ tMonth jan15 <> 1 \/ tYear jan15 <> 2024 ->
      isMatch info_a_go (config "15/1/2024" 3 3 1999 false "" "tabular") ∅ = false)
  /\ (forall day month year,
        isMatch info_a_go
          (withDate (config "15/1/2024" 3 3 1999 false "" "tabular") day month year) ∅
        = isMatch info_a_go (config "15/1/2024" 3 3 1999 false "" "tabular") ∅).
Proof.
  apply (exact_date_sole_criterion info_a_go
           (config "15/1/2024" 3 3 1999 false "" "tabular") ∅ 15 1 2024).
  - left. reflexivity.
  - reflexivity.
Defined.

(** C2 as stated fails: the combined date a/b/c is not well formed, the
    independent fields (year 2024 alone) accept the file [a.go] of
    2024-01-15, and [isMatch] rejects it: the string has three components,
    so it governs, read as 0/0/0. *)
Lemma malformed_three_parts_not_ignored :
  wellFormedDate "a/b/c" = None
  /\ isMatch info_a_go (config "a/b/c" 0 0 2024 false "" "tabular") ∅ = false
  /\ isMatch info_a_go (config "" 0 0 2024 false "" "tabular") ∅ = true.
Proof. repeat split; reflexivity. Qed.

(** C2, amended, at the combined date a/b/c and the file [a.go]. *)
Lemma allDate_governs_iff_three_parts_witness :
  (length (Split "a/b/c" "/") = 3%nat ->
     (isMatch info_a_go (config "a/b/c" 0 0 2024 false "" "tabular") ∅ = true <->
        (fst (Atoi (nth 0 (Split "a/b/c" "/") "")) = tDay jan15
         /\ fst (Atoi (nth 1 (Split "a/b/c" "/") "")) = tMonth jan15
         /\ fst (Atoi (nth 2 (Split "a/b/c" "/") "")) = tYear jan15))
     /\ forall day month year,
          isMatch info_a_go
            (withDate (config "a/b/c" 0 0 2024 false "" "tabular") day month year) ∅
          = isMatch info_a_go (config "a/b/c" 0 0 2024 false "" "tabular") ∅)
  /\ (length (Split "a/b/c" "/") <> 3%nat ->
      isMatch info_a_go (config "a/b/c" 0 0 2024 false "" "tabular") ∅
      = isMatch info_a_go
          (withAllDate (config "a/b/c" 0 0 2024 false "" "tabular") "") ∅).
Proof.
  apply (allDate_governs_iff_three_parts info_a_go
           (config "a/b/c" 0 0 2024 false "" "tabular") ∅).
  - left. reflexivity.
  - simpl. discriminate.
Defined.

(** C3 at the scenario: the filter [go] and the file [b.py]. *)
Lemma extension_not_member_rejects_witness :
  isMatch info_b_py (config "" 0 0 0 false "go" "tabular") (allowedExts "go") = false.
Proof.
  apply (extension_not_member_rejects info_b_py
           (config "" 0 0 0 false "go" "tabular") (allowedExts "go")).
  - vm_compute. lia.
  - apply not_elem_of_dom. reflexivity.
Defined.

(** C4 as stated fails: the combined date 15/Jan/2024 is malformed (its
    month is not an integer) and the year, month and day filters are all
    zero, yet [isMatch] rejects [a.go] of 2024-01-15: the month is read
    as 0. *)
Lemma malformed_date_rejects_without_filters :
  wellFormedDate "15/Jan/2024" = None
  /\ Year (config "15/Jan/2024" 0 0 0 false "" "tabular") = 0
  /\ Month (config "15/Jan/2024" 0 0 0 false "" "tabular") = 0
  /\ Day (config "15/Jan/2024" 0 0 0 false "" "tabular") = 0
  /\ isMatch info_a_go (config "15/Jan/2024" 0 0 0 false "" "tabular") ∅ = false.
Proof. repeat split; reflexivity. Qed.

(** C4, amended, at a combined date with two components and the month
    filter alone. *)
Lemma partial_filters_conjunction_witness :
  (isMatch info_a_go (config "15/1" 0 1 0 false "" "tabular") ∅ = true <->
     (Year (config "15/1" 0 1 0 false "" "tabular") = 0
      \/ Year (config "15/1" 0 1 0 false "" "tabular") = tYear jan15)
     /\ (Month (config "15/1" 0 1 0 false "" "tabular") = 0
         \/ Month (config "15/1" 0 1 0 false "" "tabular") = tMonth jan15)
     /\ (Day (config "15/1" 0 1 0 false "" "tabular") = 0
         \/ Day (config "15/1" 0 1 0 false "" "tabular") = tDay jan15))
  /\ (Year (config "15/1" 0 1 0 false "" "tabular") = 0 ->
      Month (config "15/1" 0 1 0 false "" "tabular") = 0 ->
      Day (config "15/1" 0 1 0 false "" "tabular") = 0 ->
      isMatch info_a_go (config "15/1" 0 1 0 false "" "tabular") ∅ = true).
Proof.
  apply (partial_filters_conjunction info_a_go
           (config "15/1" 0 1 0 false "" "tabular") ∅).
  - left. reflexivity.
  - right. vm_compute. lia.
Defined.

(** ** Extension normalization *)

Lemma lowerByte_isUpper c : isUpper (lowerByte c) = false.
Proof. all_bytes c. Qed.

Lemma lowerByte_asciiSpace c : asciiSpace (lowerByte c) = asciiSpace c.
Proof. all_bytes c. Qed.

Lemma lowerByte_ascii c : (code (lowerByte c) <? RuneSelf) = (code c <? RuneSelf).
Proof. all_bytes c. Qed.

Lemma lowerByte_fixed c : isUpper c = false -> lowerByte c = c.
Proof. unfold lowerByte. intros ->. reflexivity. Qed.

Lemma RuneSelf_leb c : (RuneSelf <=? code c) = negb (code c <? RuneSelf).
Proof. apply Z.leb_antisym. Qed.

Lemma isASCII_cons c s :
  isASCII (String c s) = (code c <? RuneSelf) && isASCII s.
Proof. reflexivity. Qed.

Lemma isASCII_app s t : isASCII (s +:+ t) = isASCII s && isASCII t.
Proof.
  induction s as [| c s IH]; [reflexivity |].
  change (isASCII (String c (s +:+ t)) = isASCII (String c s) && isASCII t).
  rewrite !isASCII_cons, IH. apply andb_assoc.
Qed.

Lemma mapBytes_lower_fixed s :
  existsb isUpper (bytes s) = false -> mapBytes lowerByte s = s.
Proof.
  induction s as [| c s IH]; [reflexivity |].
  simpl. intros Hex. apply orb_false_iff in Hex as [Hc Hs].
  rewrite (lowerByte_fixed _ Hc), (IH Hs). reflexivity.
Qed.

Lemma mapBytes_lower_isASCII s :
  isASCII (mapBytes lowerByte s) = isASCII s.
Proof.
  induction s as [| c s IH]; [reflexivity |].
  simpl mapBytes. rewrite !isASCII_cons, lowerByte_ascii, IH. reflexivity.
Qed.

Lemma mapBytes_lower_noUpper s :
  existsb isUpper (bytes (mapBytes lowerByte s)) = false.
Proof.
  induction s as [| c s IH]; [reflexivity |].
  simpl. rewrite lowerByte_isUpper, IH. reflexivity.
Qed.

Section Normalization.
Context `{Platform}.

Lemma ToLower_ASCII s : isASCII s = true -> ToLower s = mapBytes lowerByte s.
Proof.
  intros Hs. unfold ToLower. rewrite Hs.
  destruct (existsb isUpper (bytes s)) eqn:E; [reflexivity |].
  symmetry. apply mapBytes_lower_fixed. assumption.
Qed.

Lemma ToLower_lowerASCII s : lowerASCII s -> ToLower s = s.
Proof. intros [Ha Hu]. unfold ToLower. rewrite Ha, Hu. reflexivity. Qed.

Lemma TrimSpace_start_length s b t :
  TrimSpace_start s = (b, t) -> (String.length t <= String.length s)%nat.
Proof.
  revert b t. induction s as [| c s IH]; intros b t; simpl.
  - intros [= <- <-]. simpl. lia.
  - destruct (RuneSelf <=? code c); [intros [= <- <-]; simpl; lia |].
    destruct (asciiSpace c); [| intros [= <- <-]; simpl; lia].
    intros Hs. apply IH in Hs. lia.
Qed.

(** A string is left alone by the first loop when it is empty or starts with
    an ASCII byte that is not a space. *)
Lemma TrimSpace_start_fixed_cons c s :
  TrimSpace_start (String c s) = (false, String c s) <->
  (RuneSelf <=? code c) = false /\ asciiSpace c = false.
Proof.
  simpl. destruct (RuneSelf <=? code c); [split; [discriminate | intros [? ?]; discriminate] |].
  destruct (asciiSpace c) eqn:E.
  - split; [| intros [? ?]; discriminate].
    intros Hs. apply TrimSpace_start_length in Hs. simpl in Hs. lia.
  - split; auto.
Qed.

Lemma TrimSpace_start_ASCII s :
  isASCII s = true ->
  exists t, TrimSpace_start s = (false, t) /\ isASCII t = true
            /\ TrimSpace_start t = (false, t).
Proof.
  induction s as [| c s IH]; intros Hs.
  - exists EmptyString. repeat split.
  - rewrite isASCII_cons in Hs. apply andb_true_iff in Hs as [Hc Hs].
    simpl TrimSpace_start at 1. rewrite RuneSelf_leb, Hc. simpl negb. cbv iota.
    destruct (asciiSpace c) eqn:E.
    + apply IH. assumption.
    + exists (String c s). repeat split.
      * rewrite isASCII_cons, Hc, Hs. reflexivity.
      * apply TrimSpace_start_fixed_cons. rewrite RuneSelf_leb, Hc. auto.
Qed.

Lemma TrimSpace_stop_cons c s :
  TrimSpace_stop (String c s) =
  match TrimSpace_stop s with
  | (true, r) => (true, String c r)
  | (false, EmptyString) =>
      if RuneSelf <=? code c then (true, String c EmptyString)
      else if asciiSpace c then (false, EmptyString)
      else (false, String c EmptyString)
  | (false, r) => (false, String c r)
  end.
Proof. reflexivity. Qed.

Lemma TrimSpace_stop_ASCII s :
  isASCII s = true ->
  exists t, TrimSpace_stop s = (false, t) /\ isASCII t = true
            /\ TrimSpace_stop t = (false, t)
            /\ (TrimSpace_start s = (false, s) -> TrimSpace_start t = (false, t)).
Proof.
  induction s as [| c s IH]; intros Hs.
  - exists EmptyString. repeat split.
  - rewrite isASCII_cons in Hs. apply andb_true_iff in Hs as [Hc Hs].
    destruct (IH Hs) as (t & Hstop & Ht & Hfix & _).
    simpl TrimSpace_stop at 1. rewrite Hstop.
    destruct t as [| c' t'].
    + rewrite RuneSelf_leb, Hc. simpl negb. cbv iota.
      destruct (asciiSpace c) eqn:E.
      * exists EmptyString. repeat split.
      * exists (String c EmptyString). repeat split.
        -- rewrite isASCII_cons, Hc. reflexivity.
        -- simpl. rewrite RuneSelf_leb, Hc, E. reflexivity.
        -- intros _. apply TrimSpace_start_fixed_cons.
           rewrite RuneSelf_leb, Hc. auto.
    + exists (String c (String c' t')). repeat split.
      * rewrite isASCII_cons, Hc, Ht. reflexivity.
      * rewrite TrimSpace_stop_cons, Hfix. reflexivity.
      * intros Hstart. apply TrimSpace_start_fixed_cons.
        apply TrimSpace_start_fixed_cons in Hstart. assumption.
Qed.

Lemma TrimSpace_ASCII s :
  isASCII s = true -> isASCII (TrimSpace s) = true /\ trimmed (TrimSpace s).
Proof.
  intros Hs. unfold TrimSpace.
  destruct (TrimSpace_start_ASCII s Hs) as (s1 & -> & H1 & Hfix1).
  destruct (TrimSpace_stop_ASCII s1 H1) as (s2 & -> & H2 & Hfix2 & Hkeep).
  split; [assumption |]. split; [apply Hkeep; assumption | assumption].
Qed.

Lemma TrimSpace_trimmed s : trimmed s -> TrimSpace s = s.
Proof. intros [Hstart Hstop]. unfold TrimSpace. rewrite Hstart, Hstop. reflexivity. Qed.

Lemma trimmed_start_mapBytes s :
  TrimSpace_start s = (false, s) ->
  TrimSpace_start (mapBytes lowerByte s) = (false, mapBytes lowerByte s).
Proof.
  destruct s as [| c s]; [reflexivity |].
  intros Hs. apply TrimSpace_start_fixed_cons in Hs as [Hc Hsp].
  simpl mapBytes. apply TrimSpace_start_fixed_cons.
  rewrite RuneSelf_leb, lowerByte_ascii, <- RuneSelf_leb, lowerByte_asciiSpace.
  auto.
Qed.

Lemma trimmed_stop_mapBytes s :
  TrimSpace_stop s = (false, s) ->
  TrimSpace_stop (mapBytes lowerByte s) = (false, mapBytes lowerByte s).
Proof.
  induction s as [| c s IH]; [reflexivity |].
  simpl. destruct (TrimSpace_stop s) as [[|] r] eqn:E; [discriminate |].
  destruct r as [| c' r'].
  - destruct (RuneSelf <=? code c) eqn:Hc; [discriminate |].
    destruct (asciiSpace c) eqn:Hsp; [discriminate |].
    intros [= <-]. simpl.
    rewrite RuneSelf_leb, lowerByte_ascii, <- RuneSelf_leb, Hc,
      lowerByte_asciiSpace, Hsp. reflexivity.
  - intros [= <-]. rewrite (IH eq_refl). reflexivity.
Qed.

Lemma trimmed_mapBytes s : trimmed s -> trimmed (mapBytes lowerByte s).
Proof.
  intros [Hstart Hstop].
  split; [apply trimmed_start_mapBytes | apply trimmed_stop_mapBytes]; assumption.
Qed.

Lemma trimmed_dot s : trimmed s -> trimmed ("." +:+ s).
Proof.
  intros [_ Hstop]. split.
  - apply TrimSpace_start_fixed_cons. split; reflexivity.
  - change ("." +:+ s) with (String "."%char s).
    rewrite TrimSpace_stop_cons, Hstop. destruct s; reflexivity.
Qed.

Lemma HasPrefix_dot s : HasPrefix ("." +:+ s) "." = true.
Proof. unfold HasPrefix. destruct s; reflexivity. Qed.

(** The stored form of an entry: dotted, lower-case, trimmed. *)
Lemma normalizeExt_ASCII p :
  isASCII p = true ->
  HasPrefix (normalizeExt p) "." = true /\ lowerASCII (normalizeExt p)
  /\ trimmed (normalizeExt p).
Proof.
  intros Hp. unfold normalizeExt.
  destruct (TrimSpace_ASCII p Hp) as [Ha Htrim].
  rewrite (ToLower_ASCII _ Ha).
  set (e := mapBytes lowerByte (TrimSpace p)).
  assert (He : lowerASCII e).
  { split; [unfold e; rewrite mapBytes_lower_isASCII; assumption
           | apply mapBytes_lower_noUpper]. }
  assert (Ht : trimmed e) by (apply trimmed_mapBytes; assumption).
  destruct (HasPrefix e ".") eqn:Hpre; simpl.
  - auto.
  - split; [apply HasPrefix_dot |]. split; [| apply trimmed_dot; assumption].
    destruct He as [He1 He2]. split.
    + rewrite isASCII_app, He1. reflexivity.
    + simpl. assumption.
Qed.

Lemma normalizeExt_fixed e :
  HasPrefix e "." = true -> lowerASCII e -> trimmed e -> normalizeExt e = e.
Proof.
  intros Hpre Hlow Htrim. unfold normalizeExt.
  rewrite (TrimSpace_trimmed _ Htrim), (ToLower_lowerASCII _ Hlow), Hpre.
  reflexivity.
Qed.

Lemma normalizeExt_idempotent p :
  isASCII p = true -> normalizeExt (normalizeExt p) = normalizeExt p.
Proof.
  intros Hp. destruct (normalizeExt_ASCII p Hp) as (Hpre & Hlow & Htrim).
  apply normalizeExt_fixed; assumption.
Qed.

End Normalization.

Lemma splitFrom_ASCII sep s :
  isASCII s = true ->
  forall skip, Forall (fun p => isASCII p = true) (splitFrom sep skip s).
Proof.
  induction s as [| c s IH]; intros Hs skip.
  - repeat constructor.
  - rewrite isASCII_cons in Hs. apply andb_true_iff in Hs as [Hc Hs].
    specialize (IH Hs). cbn [splitFrom]. destruct skip as [| k]; [| apply IH].
    destruct (String.prefix sep (String c s)).
    + constructor; [reflexivity | apply IH].
    + specialize (IH O). destruct (splitFrom sep 0 s) as [| h t].
      * repeat constructor. rewrite isASCII_cons, Hc. reflexivity.
      * inversion IH as [| ? ? Hh Ht]; subst.
        constructor; [| assumption]. rewrite isASCII_cons, Hc, Hh. reflexivity.
Qed.

Lemma dom_foldl_insert (f : string -> string) (l : list string) (m : gmap string bool) :
  dom (foldl (fun m p => <[f p := true]> m) m l) = list_to_set (map f l) ∪ dom m.
Proof.
  revert m. induction l as [| p l IH]; intros m; simpl.
  - set_solver.
  - rewrite IH, dom_insert_L. set_solver.
Qed.

(** *** Trimming and lower-casing as the specification words them *)

Lemma asciiSpace_below c : asciiSpace c = true -> (RuneSelf <=? code c) = false.
Proof.
  destruct c as [[] [] [] [] [] [] [] []]; vm_compute; intros Hc;
    first [reflexivity | discriminate Hc].
Qed.

Lemma TrimSpace_start_snd s : snd (TrimSpace_start s) = trimLeftASCII s.
Proof.
  induction s as [| c s IH]; [reflexivity |].
  cbn [TrimSpace_start trimLeftASCII].
  destruct (asciiSpace c) eqn:Hsp.
  - rewrite (asciiSpace_below c Hsp). exact IH.
  - destruct (RuneSelf <=? code c); reflexivity.
Qed.

Lemma TrimSpace_stop_snd s :
  snd (TrimSpace_stop s) = trimRightASCII s
  /\ (fst (TrimSpace_stop s) = true -> snd (TrimSpace_stop s) <> EmptyString).
Proof.
  induction s as [| c s [IH1 IH2]]; [split; [reflexivity | discriminate] |].
  rewrite TrimSpace_stop_cons. cbn [trimRightASCII]. rewrite <- IH1.
  destruct (TrimSpace_stop s) as [[|] r]; cbn [fst snd] in *.
  - destruct r as [| c' r']; [exfalso; apply IH2; reflexivity |].
    split; [reflexivity | discriminate].
  - destruct r as [| c' r']; [| split; [reflexivity | discriminate]].
    destruct (asciiSpace c) eqn:Hsp.
    + rewrite (asciiSpace_below c Hsp). split; [reflexivity | discriminate].
    + destruct (RuneSelf <=? code c); split; (reflexivity || discriminate).
Qed.

Lemma length_trimLeftASCII s :
  (String.length (trimLeftASCII s) <= String.length s)%nat.
Proof.
  induction s as [| c s IH]; [reflexivity |].
  cbn [trimLeftASCII]. destruct (asciiSpace c); cbn [String.length]; lia.
Qed.

Lemma trimLeftASCII_fixed_cons c s :
  trimLeftASCII (String c s) = String c s -> asciiSpace c = false.
Proof.
  cbn [trimLeftASCII]. destruct (asciiSpace c); [| reflexivity].
  intros Heq. pose proof (length_trimLeftASCII s) as Hlen.
  rewrite Heq in Hlen. cbn [String.length] in Hlen. lia.
Qed.

Lemma trimLeftASCII_idem s : trimLeftASCII (trimLeftASCII s) = trimLeftASCII s.
Proof.
  induction s as [| c s IH]; [reflexivity |].
  cbn [trimLeftASCII]. destruct (asciiSpace c) eqn:Hsp; [exact IH |].
  cbn [trimLeftASCII]. rewrite Hsp. reflexivity.
Qed.

Lemma trimRightASCII_cons c s :
  trimRightASCII (String c s)
  = match trimRightASCII s with
    | EmptyString => if asciiSpace c then EmptyString else String c EmptyString
    | r => String c r
    end.
Proof. reflexivity. Qed.

Lemma trimRightASCII_idem s : trimRightASCII (trimRightASCII s) = trimRightASCII s.
Proof.
  induction s as [| c s IH]; [reflexivity |].
  rewrite trimRightASCII_cons. destruct (trimRightASCII s) as [| c' r'] eqn:Hr.
  - destruct (asciiSpace c) eqn:Hsp; [reflexivity |].
    rewrite trimRightASCII_cons. cbn [trimRightASCII]. rewrite Hsp. reflexivity.
  - rewrite trimRightASCII_cons, IH. reflexivity.
Qed.

Lemma trimLeft_trimRight s :
  trimLeftASCII s = s -> trimLeftASCII (trimRightASCII s) = trimRightASCII s.
Proof.
  destruct s as [| c s]; [reflexivity |].
  intros Hfix. apply trimLeftASCII_fixed_cons in Hfix.
  rewrite trimRightASCII_cons.
  destruct (trimRightASCII s); rewrite ?Hfix; cbn [trimLeftASCII]; rewrite Hfix;
    reflexivity.
Qed.

Lemma trim_idem s :
  trimRightASCII (trimLeftASCII (trimRightASCII (trimLeftASCII s)))
  = trimRightASCII (trimLeftASCII s).
Proof.
  rewrite (trimLeft_trimRight (trimLeftASCII s)) by apply trimLeftASCII_idem.
  apply trimRightASCII_idem.
Qed.

Lemma mapBytes_trimLeftASCII s :
  trimLeftASCII (mapBytes lowerByte s) = mapBytes lowerByte (trimLeftASCII s).
Proof.
  induction s as [| c s IH]; [reflexivity |].
  cbn [mapBytes trimLeftASCII]. rewrite lowerByte_asciiSpace.
  destruct (asciiSpace c); [exact IH | reflexivity].
Qed.

Lemma mapBytes_trimRightASCII s :
  trimRightASCII (mapBytes lowerByte s) = mapBytes lowerByte (trimRightASCII s).
Proof.
  induction s as [| c s IH]; [reflexivity |].
  cbn [mapBytes]. rewrite !trimRightASCII_cons, IH, lowerByte_asciiSpace.
  destruct (trimRightASCII s); [destruct (asciiSpace c) |]; reflexivity.
Qed.

Lemma mapBytes_lower_idem s :
  mapBytes lowerByte (mapBytes lowerByte s) = mapBytes lowerByte s.
Proof. apply mapBytes_lower_fixed. apply mapBytes_lower_noUpper. Qed.

(** The four facts for the functions of the specification, on every string. *)
Lemma lower_keeps_trimmed_spec s :
  trimRightASCII (trimLeftASCII
    (mapBytes lowerByte (trimRightASCII (trimLeftASCII s))))
  = mapBytes lowerByte (trimRightASCII (trimLeftASCII s)).
Proof.
  rewrite <- mapBytes_trimRightASCII, <- mapBytes_trimLeftASCII. apply trim_idem.
Qed.

Lemma lower_after_dot_spec s :
  mapBytes lowerByte s = s -> mapBytes lowerByte ("." +:+ s) = "." +:+ s.
Proof.
  intros Hs. change ("." +:+ s) with (String "."%char s). cbn [mapBytes].
  rewrite Hs. reflexivity.
Qed.

Lemma trimmed_after_dot_spec s :
  trimRightASCII (trimLeftASCII s) = s ->
  trimRightASCII (trimLeftASCII ("." +:+ s)) = "." +:+ s.
Proof.
  intros Hs. change ("." +:+ s) with (String "."%char s).
  assert (Hright : trimRightASCII s = s).
  { rewrite <- Hs at 1. rewrite trimRightASCII_idem. exact Hs. }
  cbn [trimLeftASCII]. change (asciiSpace ".") with false. cbv iota.
  rewrite trimRightASCII_cons, Hright. destruct s; reflexivity.
Qed.

Section EveryString.
Context `{Platform}.

(** On ASCII strings the two library functions are those of the
    specification. *)
Lemma TrimSpace_trim_ASCII s :
  isASCII s = true -> TrimSpace s = trimRightASCII (trimLeftASCII s).
Proof.
  intros Hs. unfold TrimSpace.
  destruct (TrimSpace_start_ASCII s Hs) as (t & Hstart & Ht & _).
  pose proof (TrimSpace_start_snd s) as Hleft. rewrite Hstart in Hleft.
  cbn [snd] in Hleft. subst t. rewrite Hstart.
  destruct (TrimSpace_stop_ASCII _ Ht) as (r & Hstop & _).
  pose proof (proj1 (TrimSpace_stop_snd (trimLeftASCII s))) as Hright.
  rewrite Hstop in Hright. cbn [snd] in Hright. subst r. rewrite Hstop.
  reflexivity.
Qed.

Lemma isASCII_trim s :
  isASCII s = true -> isASCII (trimRightASCII (trimLeftASCII s)) = true.
Proof.
  intros Hs. rewrite <- (TrimSpace_trim_ASCII s Hs). apply TrimSpace_ASCII. exact Hs.
Qed.

Lemma normalizeExt_dotted_form p :
  normalizeExt p = dotted (ToLower (TrimSpace p)).
Proof.
  unfold normalizeExt, dotted. destruct (HasPrefix (ToLower (TrimSpace p)) ".");
    reflexivity.
Qed.

Lemma normalizeExt_normalizedEntry p :
  isASCII p = true -> normalizeExt p = normalizedEntry p.
Proof.
  intros Hp. rewrite normalizeExt_dotted_form. unfold normalizedEntry.
  rewrite (TrimSpace_trim_ASCII p Hp), ToLower_ASCII by (apply isASCII_trim; exact Hp).
  reflexivity.
Qed.

(** The four facts hold on ASCII strings for every platform. *)
Lemma lower_lower_ASCII s :
  isASCII s = true -> ToLower (ToLower s) = ToLower s.
Proof.
  intros Hs. rewrite (ToLower_ASCII s Hs).
  rewrite ToLower_ASCII by (rewrite mapBytes_lower_isASCII; exact Hs).
  apply mapBytes_lower_idem.
Qed.

Lemma lower_keeps_trimmed_ASCII s :
  isASCII s = true -> TrimSpace (ToLower (TrimSpace s)) = ToLower (TrimSpace s).
Proof.
  intros Hs. pose proof (isASCII_trim s Hs) as Ht.
  rewrite (TrimSpace_trim_ASCII s Hs), (ToLower_ASCII _ Ht).
  rewrite TrimSpace_trim_ASCII by (rewrite mapBytes_lower_isASCII; exact Ht).
  apply lower_keeps_trimmed_spec.
Qed.

Lemma lower_after_dot_ASCII s :
  isASCII s = true -> ToLower s = s -> ToLower ("." +:+ s) = "." +:+ s.
Proof.
  intros Hs. rewrite (ToLower_ASCII s Hs).
  rewrite ToLower_ASCII by (rewrite isASCII_app, Hs; reflexivity).
  apply lower_after_dot_spec.
Qed.

Lemma trimmed_after_dot_ASCII s :
  isASCII s = true -> TrimSpace s = s -> TrimSpace ("." +:+ s) = "." +:+ s.
Proof.
  intros Hs. rewrite (TrimSpace_trim_ASCII s Hs).
  rewrite TrimSpace_trim_ASCII by (rewrite isASCII_app, Hs; reflexivity).
  apply trimmed_after_dot_spec.
Qed.

(** Under the laws, what the loop of [main] stores is left as it is by the
    two library functions and by the loop itself. *)
Lemma normalizeExt_stored (laws : UnicodeLaws) p :
  TrimSpace (normalizeExt p) = normalizeExt p
  /\ ToLower (normalizeExt p) = normalizeExt p
  /\ normalizeExt (normalizeExt p) = normalizeExt p.
Proof.
  set (ext := ToLower (TrimSpace p)).
  assert (Hlow : ToLower ext = ext).
  { unfold ext. destruct (isASCII (TrimSpace p)) eqn:E;
      [apply lower_lower_ASCII | apply (lower_lower laws)]; exact E. }
  assert (Htrim : TrimSpace ext = ext).
  { unfold ext. destruct (isASCII p) eqn:E;
      [apply lower_keeps_trimmed_ASCII | apply (lower_keeps_trimmed laws)];
      exact E. }
  assert (Hfix : forall n, TrimSpace n = n -> ToLower n = n -> HasPrefix n "." = true ->
                   normalizeExt n = n).
  { intros n Ht Hl Hd. unfold normalizeExt. rewrite Ht, Hl, Hd. reflexivity. }
  unfold normalizeExt. fold ext. destruct (HasPrefix ext ".") eqn:Hdot; cbn [negb].
  - split; [exact Htrim |]. split; [exact Hlow |]. apply Hfix; assumption.
  - assert (Hl : ToLower ("." +:+ ext) = "." +:+ ext).
    { destruct (isASCII ext) eqn:E;
        [apply lower_after_dot_ASCII | apply (lower_after_dot laws)];
        assumption. }
    assert (Ht : TrimSpace ("." +:+ ext) = "." +:+ ext).
    { destruct (isASCII ext) eqn:E;
        [apply trimmed_after_dot_ASCII | apply (trimmed_after_dot laws)];
        assumption. }
    split; [exact Ht |]. split; [exact Hl |].
    apply Hfix; [exact Ht | exact Hl | apply HasPrefix_dot].
Qed.

End EveryString.

(** *** The caseless platform keeps the laws *)

Lemma caseless_ToLower s : @ToLower caseless s = mapBytes lowerByte s.
Proof.
  destruct (isASCII s) eqn:E; [apply ToLower_ASCII; exact E |].
  unfold ToLower. rewrite E. reflexivity.
Qed.

Lemma caseless_TrimSpace s :
  @TrimSpace caseless s = trimRightASCII (trimLeftASCII s).
Proof.
  unfold TrimSpace. pose proof (TrimSpace_start_snd s) as Hleft.
  destruct (TrimSpace_start s) as [na s1]. cbn [snd] in Hleft. subst s1.
  destruct na.
  - cbn [TrimFunc_IsSpace caseless]. rewrite trimLeftASCII_idem. reflexivity.
  - pose proof (proj1 (TrimSpace_stop_snd (trimLeftASCII s))) as Hright.
    destruct (TrimSpace_stop (trimLeftASCII s)) as [nb s2]. cbn [snd] in Hright.
    subst s2. destruct nb; [| reflexivity].
    cbn [TrimRightFunc_IsSpace caseless]. apply trimRightASCII_idem.
Qed.

Lemma caseless_laws : @UnicodeLaws caseless.
Proof.
  split; intros s _.
  - rewrite !caseless_ToLower. apply mapBytes_lower_idem.
  - rewrite !caseless_TrimSpace, !caseless_ToLower.
    apply lower_keeps_trimmed_spec.
  - rewrite !caseless_ToLower. apply lower_after_dot_spec.
  - rewrite !caseless_TrimSpace. apply trimmed_after_dot_spec.
Qed.

Section NormalizationClaims.
Context `{Platform}.

Lemma elem_of_dom_allowedExts raw e :
  e ∈ dom (allowedExts raw) -> exists p, p ∈ Split raw "," /\ e = normalizeExt p.
Proof.
  unfold allowedExts. destruct (negb (String.eqb raw "")).
  - rewrite dom_foldl_insert, dom_empty_L, elem_of_union, elem_of_list_to_set.
    intros [Hin | Hin]; [| set_solver].
    apply list_elem_of_fmap in Hin as (p & -> & Hp). eauto.
  - rewrite dom_empty_L. set_solver.
Qed.

Lemma elem_of_dom_allowedExts_iff raw e :
  e ∈ dom (allowedExts raw) <->
  raw <> ""%string /\ exists p, p ∈ Split raw "," /\ e = normalizeExt p.
Proof.
  split.
  - intros He. split; [| apply elem_of_dom_allowedExts; exact He].
    intros ->. unfold allowedExts in He. cbn in He. rewrite dom_empty_L in He.
    set_solver.
  - intros (Hraw & p & Hp & ->). apply String.eqb_neq in Hraw.
    unfold allowedExts. rewrite Hraw. cbn [negb].
    rewrite dom_foldl_insert, elem_of_union, elem_of_list_to_set. left.
    apply list_elem_of_fmap. exists p. auto.
Qed.

(** Once each entry is left as it is by a second normalization, so are the
    stored set and the list of normalized entries. *)
Lemma normalized_set_fixed raw :
  (forall p, p ∈ Split raw "," -> normalizeExt (normalizeExt p) = normalizeExt p) ->
  set_map (D := gset string) normalizeExt (dom (allowedExts raw))
  = dom (allowedExts raw)
  /\ map normalizeExt (map normalizeExt (Split raw ","))
     = map normalizeExt (Split raw ",").
Proof.
  intros Hfix. split.
  - apply set_eq. intros e. rewrite elem_of_map. split.
    + intros (x & -> & Hx).
      pose proof Hx as Hx'. apply elem_of_dom_allowedExts in Hx' as (p & Hp & ->).
      rewrite (Hfix p Hp). exact Hx.
    + intros He. exists e. split; [| exact He].
      apply elem_of_dom_allowedExts in He as (p & Hp & ->).
      symmetry. apply Hfix. exact Hp.
  - rewrite map_map. apply map_ext_Forall. apply Forall_forall. exact Hfix.
Qed.


End NormalizationClaims.


Example normalizeExt_mixed :
  map (@normalizeExt caseless) (Split mixedExtensions ",")
  = [".go"%string;
     String "."%char
       (String (byte 227) (String (byte 129) (String (byte 130) ".txt")));
     ".py"%string]
  /\ isASCII mixedExtensions = false.
Proof. split; vm_compute; reflexivity. Qed.

Example allowedExts_scenario :
  allowedExts "go, PY,,.txt"
  = list_to_map [(".go", true); (".py", true); (".", true); (".txt", true)]
  /\ allowedExts "" = ∅.
Proof. split; vm_compute; reflexivity. Qed.

(** ** The size formatter *)

Lemma roundHalfEven_near h k :
  0 <= k -> 2 * Z.abs (2 ^ k * roundHalfEven h k - h) <= 2 ^ k.
Proof.
  intros Hk. unfold roundHalfEven.
  assert (Hpos : 0 < 2 ^ k) by (apply Z.pow_pos_nonneg; lia).
  pose proof (Z.div_mod h (2 ^ k) ltac:(lia)) as Hdm.
  pose proof (Z.mod_pos_bound h (2 ^ k) Hpos) as Hr.
  set (q := h / 2 ^ k) in *. set (r := h mod 2 ^ k) in *.
  destruct ((2 ^ k <? 2 * r) || ((2 * r =? 2 ^ k) && Z.odd q)) eqn:E.
  - assert (2 ^ k <= 2 * r).
    { apply orb_true_iff in E as [E | E].
      - apply Z.ltb_lt in E. lia.
      - apply andb_true_iff in E as [E _]. apply Z.eqb_eq in E. lia. }
    lia.
  - apply orb_false_iff in E as [E _]. apply Z.ltb_ge in E. lia.
Qed.

Lemma roundHalfEven_nonneg h k : 0 <= h -> 0 <= k -> 0 <= roundHalfEven h k.
Proof.
  intros Hh Hk. unfold roundHalfEven.
  assert (0 <= h / 2 ^ k) by (apply Z.div_pos; [lia | apply Z.pow_pos_nonneg; lia]).
  destruct (_ || _); lia.
Qed.

(** The conversion to [float64] is exact below 2^53 and off by at most 512
    below 2^63. *)
Lemma float64_error b :
  0 <= b < 2 ^ 63 ->
  0 <= float64 b /\ (b < 2 ^ 53 -> float64 b = b) /\ Z.abs (float64 b - b) <= 512.
Proof.
  intros Hb. unfold float64. rewrite (Z.abs_eq b) by lia.
  destruct (b <? 2 ^ 53) eqn:E.
  - apply Z.ltb_lt in E. repeat split; try lia.
  - apply Z.ltb_ge in E.
    assert (Hlo : 53 <= Z.log2 b) by (apply Z.log2_le_pow2; lia).
    assert (Hhi : Z.log2 b < 63) by (apply Z.log2_lt_pow2; lia).
    set (e := Z.log2 b - 52).
    assert (He : 1 <= e <= 10) by (unfold e; lia).
    pose proof (roundHalfEven_near b e ltac:(lia)) as Hnear.
    pose proof (roundHalfEven_nonneg b e ltac:(lia) ltac:(lia)) as Hnn.
    assert (Hpow : 0 < 2 ^ e <= 1024).
    { split; [apply Z.pow_pos_nonneg; lia |].
      change 1024 with (2 ^ 10). apply Z.pow_le_mono_r; lia. }
    assert (Hsgn : Z.sgn b = 1) by (apply Z.sgn_pos; lia).
    rewrite Hsgn.
    repeat split; try lia; nia.
Qed.

Lemma Sprint_2f_nonneg num k :
  0 <= num ->
  Sprint_2f (num, k) =
  Sprint_d (roundHalfEven (100 * num) k / 100) +:+ "." +:+
  appendInt (roundHalfEven (100 * num) k mod 100) 2.
Proof.
  intros Hn. unfold Sprint_2f. rewrite (Z.abs_eq num) by lia.
  destruct (num <? 0) eqn:E; [apply Z.ltb_lt in E; lia | reflexivity].
Qed.

Lemma append_assoc (a b c : string) : (a +:+ b) +:+ c = a +:+ (b +:+ c).
Proof.
  induction a as [| x a IH]; [reflexivity |].
  change (String x ((a +:+ b) +:+ c) = String x (a +:+ (b +:+ c))).
  rewrite IH. reflexivity.
Qed.

(** C6. A byte count between 0 and the largest [int64] is rendered in the
    largest unit of B, KB, MB, GB whose 1024-based threshold it reaches: as
    the bare integer for bytes, and otherwise as a number of hundredths [v]
    with two decimals, where [v] is nearest to the [float64] quotient (which
    is the exact quotient below 2^53, and comes from a count that is off by
    at most 512 above).  In particular 0 is "0 B", 1536 is "1.50 KB",
    1048576 is "1.00 MB" and 1073741824 is "1.00 GB". *)
Theorem formatSize_largest_unit_two_decimals :
  (forall b, 0 <= b < 2 ^ 63 ->
     exists u v,
       formatSize b = rendered u b v
       /\ applicable u b
       /\ (forall u', applicable u' b -> unitSize u' <= unitSize u)
       /\ (u <> UnitB ->
           2 * Z.abs (unitSize u * v - 100 * float64 b) <= unitSize u
           /\ (b < 2 ^ 53 -> float64 b = b)
           /\ Z.abs (float64 b - b) <= 512))
  /\ formatSize 0 = "0 B"%string
  /\ formatSize 1536 = "1.50 KB"%string
  /\ formatSize 1048576 = "1.00 MB"%string
  /\ formatSize 1073741824 = "1.00 GB"%string.
Proof.
  split; [| repeat split; reflexivity].
  intros b Hb.
  destruct (float64_error b Hb) as (Hnn & Hexact & Herr).
  assert (Hunits : forall u u', applicable u' b -> unitSize u <= b ->
            (forall w, unitSize u < unitSize w -> b < unitSize w) ->
            unitSize u' <= unitSize u).
  { intros u u' [-> | Hu'] Hu Hmax.
    - destruct u; simpl; lia.
    - destruct (Z.le_gt_cases (unitSize u') (unitSize u)) as [Hle | Hgt];
        [assumption | specialize (Hmax u' Hgt); lia]. }
  unfold formatSize.
  change gb with (unitSize UnitGB). change mb with (unitSize UnitMB).
  change kb with (unitSize UnitKB).
  destruct (unitSize UnitGB <=? b) eqn:Eg; [| destruct (unitSize UnitMB <=? b) eqn:Em;
    [| destruct (unitSize UnitKB <=? b) eqn:Ek]];
    rewrite ?Z.leb_le, ?Z.leb_gt in *.
  - exists UnitGB, (roundHalfEven (100 * float64 b) 30).
    unfold float64_div. change (Z.log2 (float64 (unitSize UnitGB))) with 30.
    rewrite Sprint_2f_nonneg by assumption.
    split; [unfold rendered, unitName; rewrite !append_assoc; reflexivity |].
    split; [right; assumption |].
    split; [intros u' Hu'; apply (Hunits UnitGB u' Hu' Eg);
            intros w; destruct w; simpl in *; lia |].
    intros _. split; [| split; assumption].
    pose proof (roundHalfEven_near (100 * float64 b) 30 ltac:(lia)) as Hn.
    change (unitSize UnitGB) with (2 ^ 30). exact Hn.
  - exists UnitMB, (roundHalfEven (100 * float64 b) 20).
    unfold float64_div. change (Z.log2 (float64 (unitSize UnitMB))) with 20.
    rewrite Sprint_2f_nonneg by assumption.
    split; [unfold rendered, unitName; rewrite !append_assoc; reflexivity |].
    split; [right; assumption |].
    split; [intros u' Hu'; apply (Hunits UnitMB u' Hu' Em);
            intros w; destruct w; simpl in *; lia |].
    intros _. split; [| split; assumption].
    pose proof (roundHalfEven_near (100 * float64 b) 20 ltac:(lia)) as Hn.
    change (unitSize UnitMB) with (2 ^ 20). exact Hn.
  - exists UnitKB, (roundHalfEven (100 * float64 b) 10).
    unfold float64_div. change (Z.log2 (float64 (unitSize UnitKB))) with 10.
    rewrite Sprint_2f_nonneg by assumption.
    split; [unfold rendered, unitName; rewrite !append_assoc; reflexivity |].
    split; [right; assumption |].
    split; [intros u' Hu'; apply (Hunits UnitKB u' Hu' Ek);
            intros w; destruct w; simpl in *; lia |].
    intros _. split; [| split; assumption].
    pose proof (roundHalfEven_near (100 * float64 b) 10 ltac:(lia)) as Hn.
    change (unitSize UnitKB) with (2 ^ 10). exact Hn.
  - exists UnitB, 0. split; [reflexivity |]. split; [left; reflexivity |].
    split; [| intros Hu; contradiction].
    intros u' [-> | Hu']; [simpl; lia |]. destruct u'; simpl in *; lia.
Qed.

(** C6 at 1536 bytes. *)
Lemma formatSize_largest_unit_two_decimals_witness :
  exists u v,
    formatSize 1536 = rendered u 1536 v
    /\ applicable u 1536
    /\ (forall u', applicable u' 1536 -> unitSize u' <= unitSize u)
    /\ (u <> UnitB ->
        2 * Z.abs (unitSize u * v - 100 * float64 1536) <= unitSize u
        /\ (1536 < 2 ^ 53 -> float64 1536 = 1536)
        /\ Z.abs (float64 1536 - 1536) <= 512).
Proof.
  apply (proj1 formatSize_largest_unit_two_decimals 1536). lia.
Defined.

(** Just below a threshold the smaller unit is kept, and the rounding may
    print the threshold itself. *)
Example formatSize_below_threshold :
  formatSize 1023 = "1023 B"%string
  /\ formatSize 1048575 = "1024.00 KB"%string
  /\ formatSize 1029 = "1.00 KB"%string
  /\ formatSize 1030 = "1.01 KB"%string.
Proof. repeat split; reflexivity. Qed.

(** ** Generated file names *)

Lemma prefix_empty s : String.prefix "" s = true.
Proof. destruct s; reflexivity. Qed.

Lemma prefix_comma c s : String.prefix "," (String c s) = (code c =? 44).
Proof.
  cbn [String.prefix]. destruct (ascii_dec "," c) as [<- | Hne].
  - rewrite prefix_empty. reflexivity.
  - destruct c as [[] [] [] [] [] [] [] []]; try reflexivity.
    exfalso. apply Hne. reflexivity.
Qed.

Lemma ReplaceAll_comma s : ReplaceAll s "," "_" = mapBytes commaToUnderscore s.
Proof.
  unfold ReplaceAll. induction s as [| c s IH]; [reflexivity |].
  cbn [replaceFrom mapBytes]. rewrite prefix_comma. unfold commaToUnderscore at 1.
  change (String.length "," - 1)%nat with O. rewrite IH.
  destruct (code c =? 44); reflexivity.
Qed.

Lemma generateFilename_token exts suffix :
  generateFilename "output" exts suffix
  = "output_" +:+ extToken exts +:+ "." +:+ suffix.
Proof.
  unfold generateFilename, extToken. rewrite ReplaceAll_comma.
  destruct (String.eqb exts ""); reflexivity.
Qed.

Lemma createdFiles_app t1 t2 :
  createdFiles (t1 ++ t2) = createdFiles t1 ++ createdFiles t2.
Proof. apply flat_map_app. Qed.

Lemma createdFiles_rows filename (rows : list FileResult) w :
  createdFiles
    (trace (foldl (fun w r => emit (EFprintln filename (markdownRow r)) w) w rows))
  = createdFiles (trace w).
Proof.
  revert w. induction rows as [| r rows IH]; intros w; [reflexivity |].
  simpl foldl. rewrite IH. simpl trace. rewrite createdFiles_app. simpl.
  apply app_nil_r.
Qed.

Section FilenameClaims.
Context `{Platform}.

(** C7. With the format [json] or [md] (in any letter case) the one file
    that [handleOutput] creates is named by the prefix "output", an
    underscore, the token of the extension filter (its commas turned into
    underscores, or "all" without a filter), a dot and "json" or "md"; any
    other format creates no file.  The filter go,py with JSON gives
    output_go_py.json, and no filter with Markdown gives output_all.md. *)
Theorem output_filename_from_filter results c fs w :
  (ToLower (OutputFormat c) = "json"%string ->
     createdFiles (trace (handleOutput results c fs w))
     = createdFiles (trace w) ++ ["output_" +:+ extToken (Extensions c) +:+ ".json"])
  /\ (ToLower (OutputFormat c) = "md"%string ->
     createdFiles (trace (handleOutput results c fs w))
     = createdFiles (trace w) ++ ["output_" +:+ extToken (Extensions c) +:+ ".md"])
  /\ (ToLower (OutputFormat c) <> "json"%string ->
      ToLower (OutputFormat c) <> "md"%string ->
      createdFiles (trace (handleOutput results c fs w)) = createdFiles (trace w))
  /\ generateFilename "output" "go,py" "json" = "output_go_py.json"%string
  /\ generateFilename "output" "" "md" = "output_all.md"%string.
Proof.
  split; [| split; [| split; [| split; reflexivity]]].
  - intros Hfmt. unfold handleOutput, saveJSON. rewrite Hfmt. simpl String.eqb.
    cbv iota. rewrite generateFilename_token.
    destruct (createFails fs _); simpl trace;
      rewrite !createdFiles_app; simpl; rewrite ?app_nil_r; reflexivity.
  - intros Hfmt. unfold handleOutput, saveMarkdown. rewrite Hfmt. simpl String.eqb.
    cbv iota. rewrite generateFilename_token.
    destruct (createFails fs _).
    + simpl trace. rewrite !createdFiles_app. simpl. rewrite ?app_nil_r. reflexivity.
    + simpl trace. rewrite createdFiles_app, createdFiles_rows. simpl trace.
      rewrite !createdFiles_app. simpl. rewrite ?app_nil_r. reflexivity.
  - intros Hj Hm. unfold handleOutput.
    apply String.eqb_neq in Hj, Hm. rewrite Hj, Hm. unfold printTabular.
    simpl trace. rewrite !createdFiles_app. simpl. rewrite ?app_nil_r. reflexivity.
Qed.

End FilenameClaims.

(** C7 at the filter go,py, the format json and one result. *)
Lemma output_filename_from_filter_witness :
  createdFiles
    (trace (handleOutput [buildResult "d" info_a_go]
              (config "" 0 0 0 false "go,py" "json")
              {| statNotExist := false; rootEntry := inr (Err "unused");
                 createFails := fun _ => None |}
              (initialWorld (config "" 0 0 0 false "go,py" "json"))))
  = ["output_go_py.json"].
Proof.
  apply (proj1 (output_filename_from_filter [buildResult "d" info_a_go]
           (config "" 0 0 0 false "go,py" "json")
           {| statNotExist := false; rootEntry := inr (Err "unused");
              createFails := fun _ => None |}
           (initialWorld (config "" 0 0 0 false "go,py" "json")))).
  reflexivity.
Defined.

(** ** Traversal *)

Lemma wrap64_isInt64 n : isInt64 (wrap64 n).
Proof.
  unfold isInt64, wrap64.
  pose proof (Z.mod_pos_bound (n + 2 ^ 63) (2 ^ 64) ltac:(lia)). lia.
Qed.

Lemma wrap64_small n : isInt64 n -> wrap64 n = n.
Proof. unfold isInt64, wrap64. intros Hn. rewrite Z.mod_small; lia. Qed.

Lemma wrap64_add_l a b : wrap64 (wrap64 a + b) = wrap64 (a + b).
Proof.
  unfold wrap64. f_equal.
  replace ((a + 2 ^ 63) mod 2 ^ 64 - 2 ^ 63 + b + 2 ^ 63)
    with ((a + 2 ^ 63) mod 2 ^ 64 + b) by lia.
  rewrite Z.add_mod_idemp_l by lia. f_equal. lia.
Qed.

Lemma DirEntry_nested_ind (P : DirEntry -> Prop) :
  (forall name info, P (File name info)) ->
  (forall name ds readErr, Forall P ds -> P (Directory name ds readErr)) ->
  forall d, P d.
Proof.
  intros HF HD. fix IH 1. intros [name info | name ds readErr].
  - apply HF.
  - apply HD. induction ds as [| d ds IHds]; constructor; [apply IH | exact IHds].
Qed.

Lemma quiet_emit e w : isFormatterEvent e = false -> quiet w -> quiet (emit e w).
Proof.
  unfold quiet. simpl. intros He Hw. apply Forall_app. split; [assumption |].
  constructor; [assumption | constructor].
Qed.

Lemma quiet_whenLive f w :
  (forall w, isFormatterEvent (f w) = false) -> quiet w -> quiet (whenLive f w).
Proof.
  intros Hf Hw. unfold whenLive. destruct (showLive w); [| assumption].
  apply quiet_emit; auto.
Qed.

Lemma scanStep_refl w : isInt64 (scannedCount w) -> scanStep 0 w w.
Proof.
  intros Hw. repeat split; auto. rewrite Z.add_0_r, wrap64_small; auto.
Qed.

Lemma scanStep_trans n m w1 w2 w3 :
  scanStep n w1 w2 -> scanStep m w2 w3 -> scanStep (n + m) w1 w3.
Proof.
  intros (Hc1 & Hl1 & Hq1) (Hc2 & Hl2 & Hq2). repeat split.
  - rewrite Hc2, Hc1, wrap64_add_l. f_equal. lia.
  - congruence.
  - auto.
Qed.

Lemma scanStep_isInt64 n w w' :
  scanStep n w w' -> isInt64 (scannedCount w').
Proof. intros (Hc & _). rewrite Hc. apply wrap64_isInt64. Qed.

Lemma scanStep_emit e w :
  isInt64 (scannedCount w) -> isFormatterEvent e = false -> scanStep 0 w (emit e w).
Proof.
  intros Hw He. repeat split.
  - simpl. rewrite Z.add_0_r, wrap64_small; auto.
  - intros Hq. apply quiet_emit; assumption.
Qed.

Lemma scanStep_whenLive f w :
  isInt64 (scannedCount w) -> (forall w, isFormatterEvent (f w) = false) ->
  scanStep 0 w (whenLive f w).
Proof.
  intros Hw Hf. unfold whenLive. destruct (showLive w).
  - apply scanStep_emit; auto.
  - apply scanStep_refl. assumption.
Qed.

Lemma scanStep_incScanned w : scanStep 1 w (incScanned w).
Proof. repeat split; auto. Qed.

Lemma scanStep_incMatch w : isInt64 (scannedCount w) -> scanStep 0 w (incMatch w).
Proof.
  intros Hw. repeat split; auto. simpl. rewrite Z.add_0_r, wrap64_small; auto.
Qed.

Section TraversalFacts.
Context `{Platform}.

(** What the function of [scanRecursive] does with a file. *)
Lemma scanRecursive_fn_file c exts path name info results w :
  exists w',
    scanRecursive_fn c exts path (Visit (File name info)) (results, w)
    = (None, (results ++ deepMatches c exts path (File name info), w'))
    /\ scanStep 1 w w'.
Proof.
  unfold scanRecursive_fn. cbn [deepMatches].
  pose proof (scanStep_incScanned w) as H1.
  pose proof (scanStep_isInt64 _ _ _ H1) as Hint1.
  destruct info as [info |].
  - set (w1 := if showLive (incScanned w) && (Z.rem (scannedCount (incScanned w)) 50 =? 0)
               then emit (ELiveScanning path (scannedCount (incScanned w))) (incScanned w)
               else incScanned w).
    assert (H2 : scanStep 0 (incScanned w) w1).
    { unfold w1. destruct (_ && _);
        [apply scanStep_emit; auto | apply scanStep_refl; auto]. }
    pose proof (scanStep_trans _ _ _ _ _ H1 H2) as H12.
    pose proof (scanStep_isInt64 _ _ _ H12) as Hint2.
    destruct (isMatch info c exts).
    + eexists. split; [reflexivity |].
      pose proof (scanStep_incMatch w1 Hint2) as H3.
      pose proof (scanStep_trans _ _ _ _ _ H12 H3) as H123.
      pose proof (scanStep_isInt64 _ _ _ H123) as Hint3.
      pose proof (scanStep_whenLive (fun w => ELiveMatch path (matchCount w))
                    (incMatch w1) Hint3 (fun _ => eq_refl)) as H4.
      exact (scanStep_trans _ _ _ _ _ H123 H4).
    + eexists. split; [rewrite app_nil_r; reflexivity | exact H12].
  - eexists. split; [rewrite app_nil_r; reflexivity | exact H1].
Qed.

Lemma walkDir_loop_scan c exts ds :
  Forall (walkSpec c exts) ds ->
  forall path results w,
    isInt64 (scannedCount w) ->
    exists w',
      walkDir_loop (walkDir (scanRecursive_fn c exts)) path ds (results, w)
      = (None, (results ++ deepMatchesIn c exts path ds, w'))
      /\ scanStep (visitedFilesIn ds) w w'.
Proof.
  induction 1 as [| d ds Hd _ IH]; intros path results w Hw.
  - exists w. split; [simpl; rewrite app_nil_r; reflexivity |].
    apply scanStep_refl. assumption.
  - destruct (Hd (Join path (entryName d)) results w Hw) as (w1 & Hwalk & Hstep1).
    destruct (IH path (results ++ deepMatches c exts (Join path (entryName d)) d) w1
                (scanStep_isInt64 _ _ _ Hstep1)) as (w2 & Hloop & Hstep2).
    exists w2. split.
    + cbn [walkDir_loop]. rewrite Hwalk, Hloop.
      unfold deepMatchesIn. cbn [flat_map]. rewrite app_assoc. reflexivity.
    + exact (scanStep_trans _ _ _ _ _ Hstep1 Hstep2).
Qed.

Lemma walkDir_scan c exts d : walkSpec c exts d.
Proof.
  induction d as [name info | name ds readErr IH] using DirEntry_nested_ind;
    intros path results w Hw.
  - apply scanRecursive_fn_file.
  - cbn [walkDir scanRecursive_fn].
    pose proof (scanStep_whenLive (fun _ => ELiveDirectory path) w Hw
                  (fun _ => eq_refl)) as Hlive.
    destruct readErr as [re |].
    + eexists. split; [cbn [deepMatches isSkipDir]; rewrite app_nil_r; reflexivity |].
      exact Hlive.
    + destruct (walkDir_loop_scan c exts ds IH path results
                  (whenLive (fun _ => ELiveDirectory path) w)
                  (scanStep_isInt64 _ _ _ Hlive)) as (w' & Hloop & Hstep).
      exists w'. split; [exact Hloop |].
      exact (scanStep_trans _ _ _ _ _ Hlive Hstep).
Qed.

End TraversalFacts.

Lemma deepMatchesIn_app `{Platform} c exts path ds1 ds2 :
  deepMatchesIn c exts path (ds1 ++ ds2)
  = deepMatchesIn c exts path ds1 ++ deepMatchesIn c exts path ds2.
Proof. apply flat_map_app. Qed.

Lemma visitedFilesIn_app ds1 ds2 :
  visitedFilesIn (ds1 ++ ds2) = visitedFilesIn ds1 + visitedFilesIn ds2.
Proof.
  unfold visitedFilesIn. induction ds1 as [| d ds1 IH]; simpl; [reflexivity |].
  rewrite IH. lia.
Qed.

Section ScanFacts.
Context `{Platform}.

Lemma scanRecursive_root c exts fs w root :
  isInt64 (scannedCount w) ->
  rootEntry fs = inl root ->
  exists w',
    scanRecursive c exts fs w = (deepMatches c exts (cDir c) root, None, w')
    /\ scanStep (visitedFiles root) w w'.
Proof.
  intros Hw Hroot. unfold scanRecursive, WalkDir. rewrite Hroot.
  destruct (walkDir_scan c exts root (cDir c) [] w Hw) as (w' & -> & Hstep).
  exists w'. split; [reflexivity | assumption].
Qed.

Lemma scanRecursive_no_root c exts fs w e :
  rootEntry fs = inr e -> scanRecursive c exts fs w = ([], None, w).
Proof. intros Hroot. unfold scanRecursive, WalkDir. rewrite Hroot. reflexivity. Qed.

(** A deep scan never returns an error. *)
Lemma scanRecursive_never_fails c exts fs w :
  isInt64 (scannedCount w) -> snd (fst (scanRecursive c exts fs w)) = None.
Proof.
  intros Hw. destruct (rootEntry fs) as [root | e] eqn:Hroot.
  - destruct (scanRecursive_root c exts fs w root Hw Hroot) as (w' & -> & _).
    reflexivity.
  - rewrite (scanRecursive_no_root c exts fs w e Hroot). reflexivity.
Qed.

Lemma scanFlat_body_step c exts results w entry :
  isInt64 (scannedCount w) ->
  exists results' w',
    scanFlat_body c exts (results, w) entry = (results', w') /\ scanStep 1 w w'.
Proof.
  intros Hw. unfold scanFlat_body.
  pose proof (scanStep_incScanned w) as H1.
  pose proof (scanStep_isInt64 _ _ _ H1) as Hint1.
  destruct entry as [name [info |] | name ds readErr]; try (do 2 eexists; split; [reflexivity | exact H1]).
  pose proof (scanStep_whenLive
                (fun w => ELiveScanning (Join (cDir c) name) (scannedCount w))
                (incScanned w) Hint1 (fun _ => eq_refl)) as H2.
  pose proof (scanStep_trans _ _ _ _ _ H1 H2) as H12.
  pose proof (scanStep_isInt64 _ _ _ H12) as Hint2.
  destruct (isMatch info c exts); [| do 2 eexists; split; [reflexivity | exact H12]].
  do 2 eexists. split; [reflexivity |].
  match goal with |- scanStep 1 w (whenLive ?f (incMatch ?w1)) =>
    pose proof (scanStep_incMatch w1 Hint2) as H3;
    pose proof (scanStep_trans _ _ _ _ _ H12 H3) as H123;
    pose proof (scanStep_whenLive f (incMatch w1)
                  (scanStep_isInt64 _ _ _ H123) (fun _ => eq_refl)) as H4;
    exact (scanStep_trans _ _ _ _ _ H123 H4)
  end.
Qed.

Lemma scanFlat_loop_step c exts entries :
  forall results w,
    isInt64 (scannedCount w) ->
    exists results' w',
      foldl (scanFlat_body c exts) (results, w) entries = (results', w')
      /\ scanStep (Z.of_nat (length entries)) w w'.
Proof.
  induction entries as [| entry entries IH]; intros results w Hw.
  - do 2 eexists. split; [reflexivity | apply scanStep_refl; assumption].
  - destruct (scanFlat_body_step c exts results w entry Hw)
      as (results1 & w1 & Hbody & Hstep1).
    destruct (IH results1 w1 (scanStep_isInt64 _ _ _ Hstep1))
      as (results2 & w2 & Hloop & Hstep2).
    exists results2, w2. split.
    { change (foldl (scanFlat_body c exts)
                (scanFlat_body c exts (results, w) entry) entries = (results2, w2)).
      rewrite Hbody. exact Hloop. }
    replace (Z.of_nat (length (entry :: entries)))
      with (1 + Z.of_nat (length entries)) by (simpl length; lia).
    exact (scanStep_trans _ _ _ _ _ Hstep1 Hstep2).
Qed.

(** The search adds no formatter event. *)
Lemma runSearch_quiet config exts fs w :
  isInt64 (scannedCount w) -> quiet w -> quiet (snd (runSearch config exts fs w)).
Proof.
  intros Hw Hq. unfold runSearch. destruct (Recursive config).
  - destruct (rootEntry fs) as [root | e] eqn:Hroot.
    + destruct (scanRecursive_root config exts fs w root Hw Hroot)
        as (w' & -> & (_ & _ & Hquiet)).
      apply Hquiet. assumption.
    + rewrite (scanRecursive_no_root config exts fs w e Hroot). assumption.
  - unfold scanFlat. destruct (ReadDir fs) as [entries [err |]]; [assumption |].
    destruct (scanFlat_loop_step config exts entries [] w Hw)
      as (results' & w' & -> & (_ & _ & Hquiet)).
    apply Hquiet. assumption.
Qed.

Lemma quiet_printDateFilter c w : quiet w -> quiet (printDateFilter c w).
Proof.
  intros Hq. unfold printDateFilter.
  destruct (negb (String.eqb (AllDate c) "")); [apply quiet_emit; auto |].
  destruct (0 <? length _)%nat; [apply quiet_emit; auto | assumption].
Qed.

Lemma quiet_announce c w : quiet w -> quiet (announce c w).
Proof.
  intros Hq. unfold announce.
  apply quiet_emit; [reflexivity |]. apply quiet_printDateFilter.
  assert (Hmode : quiet
            (if Recursive c
             then emit (EInfo "Mode: Deep Scan (Recursive Traversal)")
                    (emit (EInfo ("Target: " +:+ cDir c)) (emit EHeader w))
             else emit (EInfo "Mode: Flat Scan (Current Folder Only)")
                    (emit (EInfo ("Target: " +:+ cDir c)) (emit EHeader w)))).
  { destruct (Recursive c); repeat (apply quiet_emit; [reflexivity |]); assumption. }
  destruct (negb (String.eqb (Extensions c) "")); [apply quiet_emit; auto | assumption].
Qed.

Lemma scannedCount_printDateFilter c w :
  scannedCount (printDateFilter c w) = scannedCount w.
Proof.
  unfold printDateFilter.
  destruct (negb (String.eqb (AllDate c) "")); [reflexivity |].
  destruct (0 <? length _)%nat; reflexivity.
Qed.

Lemma scannedCount_announce c : scannedCount (announce c (initialWorld c)) = 0.
Proof.
  unfold announce. simpl. rewrite scannedCount_printDateFilter.
  destruct (negb (String.eqb (Extensions c) "")), (Recursive c); reflexivity.
Qed.

Lemma quiet_createdFiles t :
  Forall (fun e => isFormatterEvent e = false) t -> createdFiles t = [].
Proof.
  induction 1 as [| e t He _ IH]; [reflexivity |].
  unfold createdFiles in *. cbn [flat_map]. rewrite IH.
  destruct e; try reflexivity; discriminate.
Qed.

(** C10. When the search [main] runs returns no error and no result, [main]
    prints the summary and the warning and ends with status zero; no result
    formatter runs: the output holds no table and no file is created or
    written, whatever the output format. *)
Theorem no_match_no_formatter config fs w' :
  statNotExist fs = false ->
  runSearch config (allowedExts (Extensions config)) fs
    (announce config (initialWorld config)) = ([], None, w') ->
  main config fs
  = (0, emit (EWarning "No files found matching your criteria.")
          (emit (ESummary (scannedCount w') 0)
             (whenLive (fun _ => EClearLine) w')))
  /\ Forall (fun e => isFormatterEvent e = false) (trace (snd (main config fs)))
  /\ createdFiles (trace (snd (main config fs))) = [].
Proof.
  intros Hstat Hrun.
  assert (Hmain : main config fs
            = (0, emit (EWarning "No files found matching your criteria.")
                    (emit (ESummary (scannedCount w') 0)
                       (whenLive (fun _ => EClearLine) w')))).
  { unfold main. rewrite Hstat, Hrun. cbn [length Nat.eqb].
    f_equal. f_equal. f_equal. unfold whenLive. destruct (showLive w'); reflexivity. }
  assert (Hquiet : quiet w').
  { change w' with (snd ([] : list FileResult, @None error, w')). rewrite <- Hrun.
    apply runSearch_quiet.
    - rewrite scannedCount_announce. unfold isInt64. lia.
    - apply quiet_announce. constructor. }
  assert (Hall : Forall (fun e => isFormatterEvent e = false)
                   (trace (snd (main config fs)))).
  { rewrite Hmain. cbn [snd].
    apply quiet_emit; [reflexivity |]. apply quiet_emit; [reflexivity |].
    apply quiet_whenLive; [reflexivity | assumption]. }
  split; [exact Hmain |]. split; [exact Hall |].
  apply quiet_createdFiles. exact Hall.
Qed.

End ScanFacts.

(** C10 at the scenario: a deep scan for [go] files of 16/1/2024 with the
    Markdown format finds nothing. *)
Lemma no_match_no_formatter_witness :
  fst (main (config "16/1/2024" 0 0 0 true "go" "md") (fileSystem scenarioTree)) = 0
  /\ Forall (fun e => isFormatterEvent e = false)
       (trace (snd (main (config "16/1/2024" 0 0 0 true "go" "md")
                      (fileSystem scenarioTree))))
  /\ createdFiles
       (trace (snd (main (config "16/1/2024" 0 0 0 true "go" "md")
                      (fileSystem scenarioTree)))) = [].
Proof.
  set (cfg := config "16/1/2024" 0 0 0 true "go" "md").
  set (fs := fileSystem scenarioTree).
  assert (Hstat : statNotExist fs = false) by reflexivity.
  assert (Hrun : runSearch cfg (allowedExts (Extensions cfg)) fs
                   (announce cfg (initialWorld cfg))
                 = ([], None,
                    snd (runSearch cfg (allowedExts (Extensions cfg)) fs
                           (announce cfg (initialWorld cfg)))))
    by (vm_compute; reflexivity).
  destruct (no_match_no_formatter cfg fs _ Hstat Hrun) as (Hmain & Hquiet & Hfiles).
  split; [rewrite Hmain; reflexivity |]. split; [exact Hquiet | exact Hfiles].
Defined.

(** With a match the same run does create the file. *)
Example match_creates_file :
  createdFiles
    (trace (snd (main (config "15/1/2024" 0 0 0 true "go" "md")
                   (fileSystem scenarioTree))))
  = ["output_go.md"].
Proof. vm_compute. reflexivity. Qed.

Lemma scannedCount_whenLive f w : scannedCount (whenLive f w) = scannedCount w.
Proof. unfold whenLive. destruct (showLive w); reflexivity. Qed.

Section CountClaims.
Context `{Platform}.

(** C8, amended.  In a deep scan the scanned count moves by one for every
    entry met that is not a directory, and not at all for a directory; the
    entries of a directory that cannot be read are not met.  In both modes a
    file whose metadata cannot be read is counted like any other file: the
    count moves before the metadata is read. *)
Theorem scanned_count_moves_per_file c exts :
  (forall fs w root,
     isInt64 (scannedCount w) ->
     rootEntry fs = inl root ->
     scannedCount (snd (scanRecursive c exts fs w))
     = wrap64 (scannedCount w + visitedFiles root))
  /\ (forall path name entries readErr results w,
        scannedCount
          (snd (snd (scanRecursive_fn c exts path
                       (Visit (Directory name entries readErr)) (results, w))))
        = scannedCount w)
  /\ (forall path name info results w,
        scannedCount
          (snd (snd (scanRecursive_fn c exts path (Visit (File name info))
                       (results, w))))
        = wrap64 (scannedCount w + 1)
        /\ scannedCount (snd (scanFlat_body c exts (results, w) (File name info)))
           = wrap64 (scannedCount w + 1)).
Proof.
  split; [| split].
  - intros fs w root Hw Hroot.
    destruct (scanRecursive_root c exts fs w root Hw Hroot) as (w' & -> & (Hc & _)).
    exact Hc.
  - intros path name entries readErr results w. cbn [scanRecursive_fn snd].
    unfold whenLive. destruct (showLive w); reflexivity.
  - intros path name info results w. split.
    + destruct (scanRecursive_fn_file c exts path name info results w)
        as (w' & -> & (Hc & _)).
      exact Hc.
    + unfold scanFlat_body.
      destruct info as [info |]; [| reflexivity].
      destruct (isMatch info c exts); cbn [snd];
        rewrite ?scannedCount_whenLive; cbn [incMatch scannedCount];
        rewrite ?scannedCount_whenLive; reflexivity.
Qed.

End CountClaims.

(** C8 as stated fails: in a directory that holds one subdirectory and one
    file whose metadata cannot be read, the claim counts nothing; the flat
    scan counts 2 and the deep scan counts 1. *)
Lemma directory_and_unreadable_file_counted :
  scannedCount
    (snd (scanFlat (config "" 0 0 0 false "" "tabular") ∅
            (fileSystem (Directory "d" [Directory "sub" [] None; File "gone.go" None] None))
            (initialWorld (config "" 0 0 0 false "" "tabular")))) = 2
  /\ scannedCount
       (snd (scanRecursive (config "" 0 0 0 true "" "tabular") ∅
               (fileSystem (Directory "d" [Directory "sub" [] None; File "gone.go" None] None))
               (initialWorld (config "" 0 0 0 true "" "tabular")))) = 1.
Proof. split; vm_compute; reflexivity. Qed.

(** C8, amended, at the scenario: five entries that are not directories are
    met by the deep scan, the file in the unreadable directory is not. *)
Lemma scanned_count_moves_per_file_witness :
  scannedCount
    (snd (scanRecursive (config "" 0 0 0 true "go" "tabular") (allowedExts "go")
            (fileSystem scenarioTree)
            (initialWorld (config "" 0 0 0 true "go" "tabular"))))
  = wrap64 (0 + visitedFiles scenarioTree).
Proof.
  apply (proj1 (scanned_count_moves_per_file
                  (config "" 0 0 0 true "go" "tabular") (allowedExts "go"))
           (fileSystem scenarioTree)
           (initialWorld (config "" 0 0 0 true "go" "tabular")) scenarioTree).
  - unfold isInt64. simpl. lia.
  - reflexivity.
Defined.

Example visitedFiles_scenario : visitedFiles scenarioTree = 4.
Proof. reflexivity. Qed.

Section PruneClaims.
Context `{Platform}.

(** C9. A deep scan never returns an error.  A subdirectory whose listing
    fails is pruned: the scan of a directory, at any depth, reports and
    counts exactly what it would without that subdirectory, so nothing below
    it is reported, and every match below its siblings, before or after it,
    is in the result list. *)
Theorem errored_subdirectory_pruned c exts w :
  isInt64 (scannedCount w) ->
  (forall fs, snd (fst (scanRecursive c exts fs w)) = None)
  /\ (forall fs fs' name pre bad entries e post,
        rootEntry fs = inl (Directory name (pre ++ Directory bad entries (Some e) :: post) None) ->
        rootEntry fs' = inl (Directory name (pre ++ post) None) ->
        fst (scanRecursive c exts fs w) = fst (scanRecursive c exts fs' w)
        /\ scannedCount (snd (scanRecursive c exts fs w))
           = scannedCount (snd (scanRecursive c exts fs' w))
        /\ forall sibling r,
             In sibling (pre ++ post) ->
             In r (deepMatches c exts (Join (cDir c) (entryName sibling)) sibling) ->
             In r (fst (fst (scanRecursive c exts fs w))))
  /\ (forall path name pre bad entries e post results,
        exists w1 w2,
          walkDir (scanRecursive_fn c exts) path
            (Directory name (pre ++ Directory bad entries (Some e) :: post) None)
            (results, w)
          = (None, (results ++ deepMatchesIn c exts path pre
                            ++ deepMatchesIn c exts path post, w1))
          /\ walkDir (scanRecursive_fn c exts) path
               (Directory name (pre ++ post) None) (results, w)
             = (None, (results ++ deepMatchesIn c exts path pre
                               ++ deepMatchesIn c exts path post, w2))
          /\ scannedCount w1 = scannedCount w2).
Proof.
  intros Hw.
  assert (Hsame : forall path name pre bad entries e post,
            deepMatches c exts path
              (Directory name (pre ++ Directory bad entries (Some e) :: post) None)
            = deepMatchesIn c exts path pre ++ deepMatchesIn c exts path post
            /\ deepMatches c exts path (Directory name (pre ++ post) None)
               = deepMatchesIn c exts path pre ++ deepMatchesIn c exts path post
            /\ visitedFiles
                 (Directory name (pre ++ Directory bad entries (Some e) :: post) None)
               = visitedFiles (Directory name (pre ++ post) None)).
  { intros path name pre bad entries e post.
    change (deepMatchesIn c exts path (pre ++ Directory bad entries (Some e) :: post)
            = deepMatchesIn c exts path pre ++ deepMatchesIn c exts path post
            /\ deepMatchesIn c exts path (pre ++ post)
               = deepMatchesIn c exts path pre ++ deepMatchesIn c exts path post
            /\ visitedFilesIn (pre ++ Directory bad entries (Some e) :: post)
               = visitedFilesIn (pre ++ post)).
    rewrite !deepMatchesIn_app, !visitedFilesIn_app.
    repeat split; reflexivity. }
  split; [| split].
  - intros fs. apply scanRecursive_never_fails. assumption.
  - intros fs fs' name pre bad entries e post Hroot Hroot'.
    destruct (scanRecursive_root c exts fs w _ Hw Hroot) as (w1 & Hscan & (Hc1 & _)).
    destruct (scanRecursive_root c exts fs' w _ Hw Hroot') as (w2 & Hscan' & (Hc2 & _)).
    destruct (Hsame (cDir c) name pre bad entries e post) as (Hm & Hm' & Hv).
    rewrite Hscan, Hscan'. cbn [fst snd]. split; [| split].
    + rewrite Hm, Hm'. reflexivity.
    + rewrite Hc1, Hc2, Hv. reflexivity.
    + intros sibling r Hsib Hr. rewrite Hm, <- deepMatchesIn_app.
      unfold deepMatchesIn. apply in_flat_map. exists sibling. split; assumption.
  - intros path name pre bad entries e post results.
    destruct (walkDir_scan c exts
                (Directory name (pre ++ Directory bad entries (Some e) :: post) None)
                path results w Hw) as (w1 & Hwalk & (Hc1 & _)).
    destruct (walkDir_scan c exts (Directory name (pre ++ post) None)
                path results w Hw) as (w2 & Hwalk' & (Hc2 & _)).
    destruct (Hsame path name pre bad entries e post) as (Hm & Hm' & Hv).
    exists w1, w2. rewrite Hwalk, Hwalk', Hm, Hm', Hc1, Hc2, Hv.
    repeat split; reflexivity.
Qed.

End PruneClaims.

(** C9 at the scenario: with the unreadable directory [locked] among the
    entries, the deep scan for [go] files returns no error and reports
    [a.go] and [sub/c.go], as without that directory. *)
Lemma errored_subdirectory_pruned_witness :
  snd (fst (scanRecursive (config "" 0 0 0 true "go" "tabular") (allowedExts "go")
              (fileSystem scenarioTree)
              (initialWorld (config "" 0 0 0 true "go" "tabular")))) = None
  /\ fst (scanRecursive (config "" 0 0 0 true "go" "tabular") (allowedExts "go")
            (fileSystem scenarioTree)
            (initialWorld (config "" 0 0 0 true "go" "tabular")))
     = fst (scanRecursive (config "" 0 0 0 true "go" "tabular") (allowedExts "go")
              (fileSystem scenarioPruned)
              (initialWorld (config "" 0 0 0 true "go" "tabular"))).
Proof.
  assert (Hint : isInt64 (scannedCount (initialWorld (config "" 0 0 0 true "go" "tabular"))))
    by (unfold isInt64; simpl; lia).
  destruct (errored_subdirectory_pruned
              (config "" 0 0 0 true "go" "tabular") (allowedExts "go")
              (initialWorld (config "" 0 0 0 true "go" "tabular")) Hint)
    as (Hnever & Hprune & _).
  split; [apply Hnever |].
  exact (proj1 (Hprune (fileSystem scenarioTree) (fileSystem scenarioPruned) "d"
           [File "a.go" (Some info_a_go); File "b.py" (Some info_b_py)]
           "locked" [File "z.go" (Some info_a_go)] (Err "permission denied")
           [File "gone.go" None; Directory "sub" [File "c.go" (Some info_c_go)] None]
           eq_refl eq_refl)).
Defined.

Example deep_scan_scenario :
  map rPath
    (fst (fst (scanRecursive (config "" 0 0 0 true "go" "tabular") (allowedExts "go")
                 (fileSystem scenarioTree)
                 (initialWorld (config "" 0 0 0 true "go" "tabular")))))
  = ["d/a.go"; "d/sub/c.go"]
  /\ map rPath
       (fst (fst (scanFlat (config "" 0 0 0 false "go" "tabular") (allowedExts "go")
                    (fileSystem scenarioTree)
                    (initialWorld (config "" 0 0 0 false "go" "tabular")))))
     = ["d/a.go"].
Proof. split; vm_compute; reflexivity. Qed.

(** * Further properties of the code *)

(** ** Invariants of the two scans *)

Lemma walkDir_loop_preserves {S : Type} `{Platform} (I : S -> Prop)
    (walk : string -> DirEntry -> S -> option error * S) path ds :
  Forall (fun d => forall path s, I s -> I (snd (walk path d s))) ds ->
  forall s, I s -> I (snd (walkDir_loop walk path ds s)).
Proof.
  induction 1 as [| d ds Hd _ IH]; intros s Hs; [exact Hs |].
  cbn [walkDir_loop]. specialize (Hd (Join path (entryName d)) s Hs).
  destruct (walk (Join path (entryName d)) d s) as [[e |] s'].
  - destruct (isSkipDir e); exact Hd.
  - apply IH. exact Hd.
Qed.

(** What the function passed to the walk keeps, the walk keeps. *)
Lemma walkDir_preserves {S : Type} `{Platform} (I : S -> Prop)
    (fn : string -> WalkArg -> S -> option error * S) :
  (forall path a s, I s -> I (snd (fn path a s))) ->
  forall d path s, I s -> I (snd (walkDir fn path d s)).
Proof.
  intros Hfn d.
  induction d as [name info | name ds readErr IH] using DirEntry_nested_ind;
    intros path s Hs.
  - apply Hfn. exact Hs.
  - cbn [walkDir].
    pose proof (Hfn path (Visit (Directory name ds readErr)) s Hs) as H1.
    destruct (fn path (Visit (Directory name ds readErr)) s) as [[e |] s1];
      [exact H1 |].
    cbn [snd] in H1. destruct readErr as [re |].
    + pose proof (Hfn path (Failed (Some (Directory name ds (Some re))) re) s1 H1) as H2.
      destruct (fn path (Failed (Some (Directory name ds (Some re))) re) s1)
        as [[e |] s2]; [exact H2 |].
      apply (walkDir_loop_preserves I); assumption.
    + apply (walkDir_loop_preserves I); assumption.
Qed.

Lemma WalkDir_preserves {S : Type} `{Platform} (I : S -> Prop) fs root
    (fn : string -> WalkArg -> S -> option error * S) :
  (forall path a s, I s -> I (snd (fn path a s))) ->
  forall s, I s -> I (snd (WalkDir fs root fn s)).
Proof.
  intros Hfn s Hs. unfold WalkDir.
  destruct (rootEntry fs) as [d | e].
  - pose proof (walkDir_preserves I fn Hfn d root s Hs) as Hw.
    destruct (walkDir fn root d s) as [[e |] s']; exact Hw.
  - pose proof (Hfn root (Failed None e) s Hs) as Hw.
    destruct (fn root (Failed None e) s) as [[e' |] s']; exact Hw.
Qed.

Lemma foldl_preserves {A B : Type} (I : A -> Prop) (f : A -> B -> A) l :
  (forall a b, I a -> I (f a b)) -> forall a, I a -> I (foldl f a l).
Proof.
  intros Hf. induction l as [| b l IH]; intros a Ha; [exact Ha |].
  apply IH. apply Hf. exact Ha.
Qed.

Section ScanInvariants.
Context `{Platform}.

(** Any property of the pair (results, state) that both loop bodies keep
    holds after the search. *)
Lemma runSearch_preserves (I : list FileResult * World -> Prop) config exts fs w :
  (forall path a st, I st -> I (snd (scanRecursive_fn config exts path a st))) ->
  (forall st entry, I st -> I (scanFlat_body config exts st entry)) ->
  I ([], w) ->
  I (fst (fst (runSearch config exts fs w)), snd (runSearch config exts fs w)).
Proof.
  intros Hdeep Hflat Hstart. unfold runSearch. destruct (Recursive config).
  - unfold scanRecursive.
    pose proof (WalkDir_preserves I fs (cDir config) _ Hdeep ([], w) Hstart) as Hw.
    destruct (WalkDir fs (cDir config) (scanRecursive_fn config exts) ([], w))
      as [err [results w']].
    exact Hw.
  - unfold scanFlat. destruct (ReadDir fs) as [entries [err |]]; [exact Hstart |].
    pose proof (foldl_preserves I (scanFlat_body config exts) entries Hflat ([], w) Hstart)
      as Hw.
    destruct (foldl (scanFlat_body config exts) ([], w) entries) as [results w'].
    exact Hw.
Qed.

End ScanInvariants.

Lemma matchCount_whenLive f w : matchCount (whenLive f w) = matchCount w.
Proof. unfold whenLive. destruct (showLive w); reflexivity. Qed.

Lemma showLive_whenLive f w : showLive (whenLive f w) = showLive w.
Proof. unfold whenLive. destruct (showLive w) eqn:E; exact E. Qed.

Lemma whenLive_silent f w : showLive w = false -> whenLive f w = w.
Proof. unfold whenLive. intros ->. reflexivity. Qed.

Lemma wrap64_sub_succ m n :
  wrap64 (wrap64 (m + 1) - (n + 1)) = wrap64 (m - n).
Proof.
  replace (wrap64 (m + 1) - (n + 1)) with (wrap64 (m + 1) + (- (n + 1))) by lia.
  rewrite wrap64_add_l. f_equal. lia.
Qed.

Section CounterFacts.
Context `{Platform}.

Lemma foundInStep_match k results w r f :
  matchCount w = matchCount w ->
  foundInStep k (results, w) ->
  foundInStep k (results ++ [r], whenLive f (incMatch w)).
Proof.
  intros _ [Hint Hk]. unfold foundInStep. cbn [fst snd] in *.
  rewrite matchCount_whenLive. cbn [incMatch matchCount]. split.
  - apply wrap64_isInt64.
  - rewrite length_app. cbn [length].
    replace (Z.of_nat (length results + 1)) with (Z.of_nat (length results) + 1) by lia.
    rewrite wrap64_sub_succ. exact Hk.
Qed.

Lemma foundInStep_same k results w w' :
  matchCount w' = matchCount w ->
  foundInStep k (results, w) -> foundInStep k (results, w').
Proof. intros Hm [Hint Hk]. unfold foundInStep. cbn [fst snd] in *. rewrite Hm. auto. Qed.

Lemma scanRecursive_fn_found k c exts path a st :
  foundInStep k st -> foundInStep k (snd (scanRecursive_fn c exts path a st)).
Proof.
  destruct st as [results w]. intros Hst.
  destruct a as [[name [info |] | name ds re] | d e]; cbn [scanRecursive_fn snd].
  - set (w1 := if showLive (incScanned w) && (Z.rem (scannedCount (incScanned w)) 50 =? 0)
               then emit (ELiveScanning path (scannedCount (incScanned w))) (incScanned w)
               else incScanned w).
    assert (Hw1 : matchCount w1 = matchCount w) by (unfold w1; destruct (_ && _); reflexivity).
    pose proof (foundInStep_same k results w w1 Hw1 Hst) as Hst1.
    destruct (isMatch info c exts); cbn [snd].
    + apply foundInStep_match; [reflexivity | exact Hst1].
    + exact Hst1.
  - apply (foundInStep_same k results w); [reflexivity | exact Hst].
  - apply (foundInStep_same k results w); [apply matchCount_whenLive | exact Hst].
  - exact Hst.
Qed.

Lemma scanFlat_body_found k c exts st entry :
  foundInStep k st -> foundInStep k (scanFlat_body c exts st entry).
Proof.
  destruct st as [results w]. intros Hst.
  destruct entry as [name [info |] | name ds re]; cbn [scanFlat_body].
  - set (w1 := whenLive (fun w => ELiveScanning (Join (cDir c) name) (scannedCount w))
                 (incScanned w)).
    assert (Hw1 : matchCount w1 = matchCount w)
      by (unfold w1; rewrite matchCount_whenLive; reflexivity).
    pose proof (foundInStep_same k results w w1 Hw1 Hst) as Hst1.
    destruct (isMatch info c exts).
    + apply foundInStep_match; [reflexivity | exact Hst1].
    + exact Hst1.
  - apply (foundInStep_same k results w); [reflexivity | exact Hst].
  - apply (foundInStep_same k results w); [reflexivity | exact Hst].
Qed.

(** X1. After a search that succeeds, in either mode, the found counter
    (the number shown on the live match lines) has moved by the number of
    results returned. *)
Theorem matchCount_moves_with_results config exts fs w results w' :
  isInt64 (matchCount w) ->
  runSearch config exts fs w = (results, None, w') ->
  matchCount w' = wrap64 (matchCount w + Z.of_nat (length results)).
Proof.
  intros Hint Hrun.
  pose proof (runSearch_preserves (foundInStep (matchCount w)) config exts fs w
                (scanRecursive_fn_found _ config exts)
                (scanFlat_body_found _ config exts)) as Hinv.
  rewrite Hrun in Hinv. cbn [fst snd] in Hinv.
  destruct Hinv as [Hint' Hk].
  - split; [exact Hint |]. cbn [fst snd length].
    rewrite Z.sub_0_r. apply wrap64_small. exact Hint.
  - cbn [fst snd] in *. rewrite <- Hk, wrap64_add_l.
    replace (matchCount w' - Z.of_nat (length results) + Z.of_nat (length results))
      with (matchCount w') by lia.
    symmetry. apply wrap64_small. exact Hint'.
Qed.

End CounterFacts.

Section SilentFacts.
Context `{Platform}.

Lemma scanRecursive_fn_silent t c exts path a st :
  silentAt t st -> silentAt t (snd (scanRecursive_fn c exts path a st)).
Proof.
  destruct st as [results w]. intros [Hlive Htrace]. cbn [fst snd] in *.
  destruct a as [[name [info |] | name ds re] | d e]; cbn [scanRecursive_fn snd].
  - cbn [showLive incScanned]. rewrite Hlive. cbn [andb].
    destruct (isMatch info c exts); cbn [snd].
    + rewrite whenLive_silent by exact Hlive. split; assumption.
    + split; assumption.
  - split; assumption.
  - rewrite whenLive_silent by exact Hlive. split; assumption.
  - split; assumption.
Qed.

Lemma scanFlat_body_silent t c exts st entry :
  silentAt t st -> silentAt t (scanFlat_body c exts st entry).
Proof.
  destruct st as [results w]. intros [Hlive Htrace]. cbn [fst snd] in *.
  destruct entry as [name [info |] | name ds re]; cbn [scanFlat_body].
  - rewrite (whenLive_silent _ (incScanned w)) by exact Hlive.
    destruct (isMatch info c exts).
    + rewrite whenLive_silent by exact Hlive. split; assumption.
    + split; assumption.
  - split; assumption.
  - split; assumption.
Qed.

Lemma showLive_printDateFilter c w : showLive (printDateFilter c w) = showLive w.
Proof.
  unfold printDateFilter.
  destruct (negb (String.eqb (AllDate c) "")); [reflexivity |].
  destruct (0 <? length _)%nat; reflexivity.
Qed.

Lemma showLive_announce c w : showLive (announce c w) = showLive w.
Proof.
  unfold announce. cbn [showLive emit]. rewrite showLive_printDateFilter.
  destruct (negb (String.eqb (Extensions c) "")), (Recursive c); reflexivity.
Qed.

(** X2. Unless the output format is exactly [json] or [md], the search
    prints nothing: the output after the search is the output before it.
    The format [JSON], which [handleOutput] lower-cases and accepts, is
    among those that run silently. *)
Theorem search_silent_unless_json_or_md config exts fs :
  String.eqb (OutputFormat config) "json" || String.eqb (OutputFormat config) "md"
  = false ->
  trace (snd (runSearch config exts fs (announce config (initialWorld config))))
  = trace (announce config (initialWorld config)).
Proof.
  intros Hfmt.
  pose proof (runSearch_preserves
                (silentAt (trace (announce config (initialWorld config))))
                config exts fs (announce config (initialWorld config))
                (scanRecursive_fn_silent _ config exts)
                (scanFlat_body_silent _ config exts)) as Hinv.
  destruct Hinv as [_ Htrace]; [| exact Htrace].
  split; [| reflexivity]. cbn [snd]. rewrite showLive_announce. exact Hfmt.
Qed.

End SilentFacts.

Section ResultFacts.
Context `{Platform}.

Lemma scanFlat_loop_results c exts entries :
  forall results w,
    fst (foldl (scanFlat_body c exts) (results, w) entries)
    = results ++ flatMatches c exts entries.
Proof.
  induction entries as [| entry entries IH]; intros results w.
  - cbn. rewrite app_nil_r. reflexivity.
  - change (foldl (scanFlat_body c exts) (results, w) (entry :: entries))
      with (foldl (scanFlat_body c exts) (scanFlat_body c exts (results, w) entry) entries).
    unfold flatMatches. cbn [flat_map]. fold (flatMatches c exts entries).
    destruct entry as [name [info |] | name ds re]; cbn [scanFlat_body].
    + destruct (isMatch info c exts); rewrite IH.
      * rewrite <- app_assoc. reflexivity.
      * reflexivity.
    + rewrite IH. reflexivity.
    + rewrite IH. reflexivity.
Qed.

Lemma In_flatMatches c exts entries r :
  In r (flatMatches c exts entries) <->
  exists name info,
    In (File name (Some info)) entries /\ isMatch info c exts = true
    /\ r = buildResult (cDir c) info.
Proof.
  unfold flatMatches. rewrite in_flat_map. split.
  - intros (entry & Hin & Hr).
    destruct entry as [name [info |] | name ds re]; try contradiction.
    destruct (isMatch info c exts) eqn:E; [| contradiction].
    destruct Hr as [<- | []]. exists name, info. auto.
  - intros (name & info & Hin & Hm & ->).
    exists (File name (Some info)). split; [exact Hin |].
    rewrite Hm. left. reflexivity.
Qed.

(** X3. A flat scan whose listing succeeds returns, in listing order, one
    result for each entry that is a file with readable metadata and
    matches, with the path of the target directory; what lies inside the
    subdirectories plays no part. *)
Theorem scanFlat_reports_direct_files c exts fs w entries :
  ReadDir fs = (entries, None) ->
  fst (fst (scanFlat c exts fs w)) = flatMatches c exts entries
  /\ snd (fst (scanFlat c exts fs w)) = None
  /\ forall r,
       In r (fst (fst (scanFlat c exts fs w))) <->
       exists name info,
         In (File name (Some info)) entries /\ isMatch info c exts = true
         /\ r = buildResult (cDir c) info.
Proof.
  intros Hread.
  assert (Hres : fst (fst (scanFlat c exts fs w)) = flatMatches c exts entries
                 /\ snd (fst (scanFlat c exts fs w)) = None).
  { unfold scanFlat. rewrite Hread.
    pose proof (scanFlat_loop_results c exts entries [] w) as Hloop.
    destruct (foldl (scanFlat_body c exts) ([], w) entries) as [results w'].
    cbn [fst snd] in *. rewrite Hloop. split; reflexivity. }
  destruct Hres as [Hres Herr]. split; [exact Hres |]. split; [exact Herr |].
  intros r. rewrite Hres. apply In_flatMatches.
Qed.

(** X4. A flat scan counts every entry of the listing, directories and files
    with unreadable metadata included; when the listing fails it returns
    the error with no result and leaves the counters and the output as they
    were. *)
Theorem scanFlat_counts_every_entry c exts fs w :
  isInt64 (scannedCount w) ->
  (forall entries,
     ReadDir fs = (entries, None) ->
     scannedCount (snd (scanFlat c exts fs w))
     = wrap64 (scannedCount w + Z.of_nat (length entries)))
  /\ (forall entries err,
        ReadDir fs = (entries, Some err) ->
        scanFlat c exts fs w = ([], Some err, w)).
Proof.
  intros Hw. split.
  - intros entries Hread. unfold scanFlat. rewrite Hread.
    destruct (scanFlat_loop_step c exts entries [] w Hw)
      as (results' & w' & -> & (Hc & _)).
    exact Hc.
  - intros entries err Hread. unfold scanFlat. rewrite Hread. reflexivity.
Qed.

Lemma In_deepMatches c exts d :
  forall path r,
    In r (deepMatches c exts path d) <->
    exists p info,
      Reachable path d p info /\ isMatch info c exts = true
      /\ r = buildResult (Dir p) info.
Proof.
  induction d as [name info | name ds readErr IH] using DirEntry_nested_ind;
    intros path r.
  - destruct info as [info |]; cbn [deepMatches].
    + split.
      * destruct (isMatch info c exts) eqn:E; [| contradiction].
        intros [<- | []]. exists path, info. repeat split; [constructor | exact E].
      * intros (p & info' & Hreach & Hm & ->). inversion Hreach; subst.
        rewrite Hm. left. reflexivity.
    + split; [contradiction |].
      intros (p & info' & Hreach & _). inversion Hreach.
  - destruct readErr as [re |]; cbn [deepMatches].
    + split; [contradiction |].
      intros (p & info' & Hreach & _). inversion Hreach.
    + rewrite in_flat_map.
      pose proof (proj1 (List.Forall_forall _ _) IH) as IH'. clear IH.
      rename IH' into IH. split.
      * intros (d & Hin & Hr). apply IH in Hr; [| exact Hin].
        destruct Hr as (p & info & Hreach & Hm & ->).
        exists p, info. repeat split; [| exact Hm].
        econstructor; eassumption.
      * intros (p & info & Hreach & Hm & ->). inversion Hreach; subst.
        match goal with
        | Hin : In ?d ds, Hr : Reachable _ ?d _ _ |- _ =>
            exists d; split; [exact Hin |];
            apply (IH d Hin); exists p, info; auto
        end.
Qed.

(** X5. A deep scan returns exactly the files with readable metadata that
    match and that the walk can reach from the target through directories
    whose listing succeeds, at any depth; each is reported under the
    directory of the path at which the walk met it. *)
Theorem deep_scan_reports_reachable_matches c exts fs w root r :
  isInt64 (scannedCount w) ->
  rootEntry fs = inl root ->
  In r (fst (fst (scanRecursive c exts fs w))) <->
  exists p info,
    Reachable (cDir c) root p info /\ isMatch info c exts = true
    /\ r = buildResult (Dir p) info.
Proof.
  intros Hw Hroot.
  destruct (scanRecursive_root c exts fs w root Hw Hroot) as (w' & -> & _).
  cbn [fst]. apply In_deepMatches.
Qed.

(** X6. The exit status of [main] is 1 when the target directory does not
    exist, and when a flat scan cannot list it; it is 0 in every other case.
    A deep scan never fails: a target that cannot be read ends with status 0. *)
Theorem main_exit_status config fs :
  fst (main config fs)
  = if statNotExist fs then 1
    else if Recursive config then 0
    else match snd (ReadDir fs) with Some _ => 1 | None => 0 end.
Proof.
  unfold main. destruct (statNotExist fs); [reflexivity |].
  assert (Hw : isInt64 (scannedCount (announce config (initialWorld config)))).
  { rewrite scannedCount_announce. unfold isInt64. lia. }
  assert (Herr : snd (fst (runSearch config (allowedExts (Extensions config)) fs
                             (announce config (initialWorld config))))
                 = if Recursive config then None else snd (ReadDir fs)).
  { unfold runSearch. destruct (Recursive config).
    - apply scanRecursive_never_fails. exact Hw.
    - unfold scanFlat. destruct (ReadDir fs) as [entries [err |]]; [reflexivity |].
      destruct (foldl _ _ entries) as [results w']. reflexivity. }
  destruct (runSearch config (allowedExts (Extensions config)) fs
              (announce config (initialWorld config))) as [[results err] w'].
  cbn [fst snd] in Herr. subst err.
  destruct (Recursive config).
  - destruct (length results =? 0)%nat; reflexivity.
  - destruct (snd (ReadDir fs)); [reflexivity |].
    destruct (length results =? 0)%nat; reflexivity.
Qed.

End ResultFacts.

(** ** The extension map *)

Lemma lookup_foldl_insert_notin (f : string -> string) l (m : gmap string bool) k :
  ~ In k (map f l) ->
  foldl (fun m p => <[f p := true]> m) m l !! k = m !! k.
Proof.
  revert m. induction l as [| p l IH]; intros m Hnot; [reflexivity |].
  cbn [foldl]. rewrite IH by (intros Hin; apply Hnot; right; exact Hin).
  apply lookup_insert_ne. intros Heq. apply Hnot. left. exact Heq.
Qed.

Lemma lookup_foldl_insert_in (f : string -> string) l (m : gmap string bool) k :
  In k (map f l) ->
  foldl (fun m p => <[f p := true]> m) m l !! k = Some true.
Proof.
  revert m. induction l as [| p l IH]; intros m Hin; [contradiction |].
  cbn [foldl]. destruct (in_dec string_dec k (map f l)) as [Hl | Hl].
  - apply IH. exact Hl.
  - rewrite lookup_foldl_insert_notin by exact Hl.
    destruct Hin as [<- | Hin]; [apply lookup_insert_eq | contradiction].
Qed.

Lemma splitFrom_not_nil sep skip s : splitFrom sep skip s <> [].
Proof.
  revert skip. induction s as [| c s IH]; intros skip; [discriminate |].
  cbn [splitFrom]. destruct skip as [| k]; [| apply IH].
  destruct (String.prefix sep (String c s)); [discriminate |].
  destruct (splitFrom sep 0 s); discriminate.
Qed.

Section ExtensionMapFacts.
Context `{Platform}.

Lemma normalizeExt_dotted p : HasPrefix (normalizeExt p) "." = true.
Proof.
  unfold normalizeExt.
  destruct (HasPrefix (ToLower (TrimSpace p)) ".") eqn:E; cbn [negb].
  - exact E.
  - apply HasPrefix_dot.
Qed.

Lemma allowedExts_lookup raw k :
  String.eqb raw "" = false ->
  allowedExts raw !! k
  = if in_dec string_dec k (map normalizeExt (Split raw ","))
    then Some true else None.
Proof.
  intros Hraw. unfold allowedExts. rewrite Hraw. cbn [negb].
  destruct (in_dec string_dec k (map normalizeExt (Split raw ","))) as [Hin | Hnot].
  - apply lookup_foldl_insert_in. exact Hin.
  - rewrite lookup_foldl_insert_notin by exact Hnot. apply lookup_empty.
Qed.

Lemma allowedExts_size raw :
  (0 <? size (allowedExts raw))%nat = negb (String.eqb raw "").
Proof.
  destruct (String.eqb raw "") eqn:Hraw; cbn [negb].
  - unfold allowedExts. rewrite Hraw. reflexivity.
  - apply Nat.ltb_lt.
    destruct (Split raw ",") as [| p ps] eqn:Hsplit;
      [exfalso; exact (splitFrom_not_nil _ _ _ Hsplit) |].
    assert (Hp : allowedExts raw !! normalizeExt p = Some true).
    { rewrite allowedExts_lookup by exact Hraw. rewrite Hsplit.
      destruct (in_dec _ _ _) as [_ | Hnot]; [reflexivity |].
      exfalso. apply Hnot. left. reflexivity. }
    destruct (size (allowedExts raw)) eqn:Hsize; [| lia].
    apply map_size_empty_iff in Hsize. rewrite Hsize, lookup_empty in Hp.
    discriminate.
Qed.

(** X7. With a non-empty extension list the map holds exactly the
    normalized entries of the list, each with the value true: a key reads
    as true if and only if it is the normalization of some entry, and no
    key is stored with the value false. *)
Theorem allowedExts_holds_normalized_entries raw k :
  raw <> ""%string ->
  (mapIndex (allowedExts raw) k = true <->
     exists p, In p (Split raw ",") /\ k = normalizeExt p)
  /\ allowedExts raw !! k <> Some false.
Proof.
  intros Hraw. apply String.eqb_neq in Hraw.
  unfold mapIndex. rewrite (allowedExts_lookup raw k Hraw).
  destruct (in_dec string_dec k (map normalizeExt (Split raw ","))) as [Hin | Hnot];
    cbn [default].
  - split; [| discriminate]. split; [| reflexivity].
    intros _. apply in_map_iff in Hin as (p & <- & Hp). exists p. auto.
  - split; [| discriminate]. split; [discriminate |].
    intros (p & Hp & ->). exfalso. apply Hnot. apply in_map. exact Hp.
Qed.

(** X8. The extension step of the match is active exactly when the
    extension list is not the empty string: the map is empty for the empty
    list and for no other, so a list such as a single comma or a blank is a
    filter, not a wildcard. *)
Theorem extension_filter_active_iff_nonempty raw :
  size (allowedExts raw) = 0%nat <-> raw = ""%string.
Proof.
  pose proof (allowedExts_size raw) as Hsize.
  destruct (String.eqb raw "") eqn:Hraw; cbn [negb] in Hsize.
  - apply String.eqb_eq in Hraw. apply Nat.ltb_ge in Hsize. split; [auto | lia].
  - apply String.eqb_neq in Hraw. apply Nat.ltb_lt in Hsize. split; [lia | contradiction].
Qed.

Lemma Ext_scan_no_dot l suffix :
  (forall ch, In ch l -> code ch <> 46) -> Ext_scan l suffix = EmptyString.
Proof.
  revert suffix. induction l as [| c l IH]; intros suffix Hno; [reflexivity |].
  cbn [Ext_scan]. destruct (IsPathSeparator c); [reflexivity |].
  destruct (code c =? 46) eqn:E.
  - apply Z.eqb_eq in E. exfalso. apply (Hno c); [left; reflexivity | exact E].
  - apply IH. intros ch Hch. apply Hno. right. exact Hch.
Qed.

(** X9. With any non-empty extension list, a file whose name holds no dot
    is rejected, whatever its date: its extension is the empty string, and
    every stored key starts with a dot. *)
Theorem file_without_dot_rejected info c :
  Extensions c <> ""%string ->
  (forall ch, In ch (bytes (Name info)) -> code ch <> 46) ->
  isMatch info c (allowedExts (Extensions c)) = false.
Proof.
  intros Hraw Hno. apply String.eqb_neq in Hraw.
  assert (Hext : Ext (Name info) = EmptyString).
  { unfold Ext. apply Ext_scan_no_dot. intros ch Hch.
    apply Hno. apply in_rev. exact Hch. }
  unfold isMatch. rewrite allowedExts_size, Hraw, Hext. cbn [negb andb].
  change (ToLower "") with EmptyString.
  unfold mapIndex. rewrite (allowedExts_lookup _ _ Hraw).
  destruct (in_dec string_dec "" (map normalizeExt (Split (Extensions c) ",")))
    as [Hin | Hnot]; [| reflexivity].
  apply in_map_iff in Hin as (p & Hp & _).
  pose proof (normalizeExt_dotted p) as Hdot. rewrite Hp in Hdot. discriminate.
Qed.

End ExtensionMapFacts.

(** ** Dates that are not numbers *)

Lemma Atoi_syntax_zero s : snd (Atoi s) = Some ErrSyntax -> fst (Atoi s) = 0.
Proof.
  unfold Atoi.
  destruct ((0 <? Z.of_nat (String.length s)) && (Z.of_nat (String.length s) <? 19)).
  - destruct s as [| c0 s']; [reflexivity |].
    destruct (((code c0 =? 45) || (code c0 =? 43)) && _); [reflexivity |].
    destruct (atoi_fast _ 0); [discriminate | reflexivity].
  - unfold ParseInt. destruct s as [| c0 s']; [reflexivity |].
    destruct (ParseUint _) as [un [[] |]]; cbn [fst snd].
    + reflexivity.
    + destruct (negb (code c0 =? 45) && _); [discriminate |].
      destruct ((code c0 =? 45) && _); discriminate.
    + destruct (negb (code c0 =? 45) && _); [discriminate |].
      destruct ((code c0 =? 45) && _); discriminate.
Qed.

Section BadDateFacts.
Context `{Platform}.

(** X10. When the combined date has three components and one of them is
    not a number, the match reads that component as 0: every file whose
    corresponding date field is not 0 is rejected, so with a month such as
    Jan no file of a real calendar date matches. *)
Theorem non_numeric_component_rejects info c exts :
  threeParts (AllDate c) = true ->
  (snd (Atoi (nth 0 (Split (AllDate c) "/") "")) = Some ErrSyntax
   /\ tDay (ModTime info) <> 0)
  \/ (snd (Atoi (nth 1 (Split (AllDate c) "/") "")) = Some ErrSyntax
      /\ tMonth (ModTime info) <> 0)
  \/ (snd (Atoi (nth 2 (Split (AllDate c) "/") "")) = Some ErrSyntax
      /\ tYear (ModTime info) <> 0) ->
  isMatch info c exts = false.
Proof.
  intros Hthree Hbad. unfold isMatch.
  destruct ((0 <? size exts)%nat && _); [reflexivity |].
  cbn [Date]. unfold threeParts in Hthree. rewrite Hthree.
  destruct Hbad as [[He Hne] | [[He Hne] | [He Hne]]];
    rewrite (Atoi_syntax_zero _ He);
    destruct (Z.eqb_spec 0 (tDay (ModTime info)));
    destruct (Z.eqb_spec 0 (tMonth (ModTime info)));
    destruct (Z.eqb_spec 0 (tYear (ModTime info)));
    try reflexivity; try congruence;
    cbn [negb orb]; rewrite ?orb_true_r; reflexivity.
Qed.

End BadDateFacts.

(** ** Date filters only narrow the results *)

Section NarrowingFacts.
Context `{Platform}.

Lemma isMatch_noDateFilter info c exts :
  isMatch info c exts = true -> isMatch info (noDateFilter c) exts = true.
Proof.
  unfold isMatch.
  destruct ((0 <? size exts)%nat && _); [discriminate |].
  intros _. reflexivity.
Qed.

Lemma flatMatches_noDateFilter c exts entries :
  flatMatches c exts entries `sublist_of` flatMatches (noDateFilter c) exts entries.
Proof.
  unfold flatMatches. induction entries as [| entry entries IH]; [constructor |].
  cbn [flat_map]. apply sublist_app; [| exact IH].
  destruct entry as [name [info |] | name ds re]; try constructor.
  destruct (isMatch info c exts) eqn:E; [| apply sublist_nil_l].
  rewrite (isMatch_noDateFilter _ _ _ E). reflexivity.
Qed.

Lemma deepMatches_noDateFilter c exts d :
  forall path,
    deepMatches c exts path d `sublist_of` deepMatches (noDateFilter c) exts path d.
Proof.
  induction d as [name info | name ds readErr IH] using DirEntry_nested_ind;
    intros path.
  - destruct info as [info |]; cbn [deepMatches]; [| constructor].
    destruct (isMatch info c exts) eqn:E; [| apply sublist_nil_l].
    rewrite (isMatch_noDateFilter _ _ _ E). reflexivity.
  - destruct readErr as [re |]; cbn [deepMatches]; [constructor |].
    induction IH as [| d ds Hd _ IHds]; [constructor |].
    cbn [flat_map]. apply sublist_app; [apply Hd | exact IHds].
Qed.

(** X11. Taking every date filter away never loses a result: what a search
    returns, in either mode, is a sublist, in the same order, of what the same
    search returns without date filters. *)
Theorem date_filters_only_narrow c exts fs w :
  isInt64 (scannedCount w) ->
  fst (fst (runSearch c exts fs w))
  `sublist_of` fst (fst (runSearch (noDateFilter c) exts fs w)).
Proof.
  intros Hw. unfold runSearch. change (Recursive (noDateFilter c)) with (Recursive c).
  destruct (Recursive c).
  - destruct (rootEntry fs) as [root | e] eqn:Hroot.
    + destruct (scanRecursive_root c exts fs w root Hw Hroot) as (w1 & -> & _).
      destruct (scanRecursive_root (noDateFilter c) exts fs w root Hw Hroot)
        as (w2 & -> & _).
      cbn [fst]. apply deepMatches_noDateFilter.
    + rewrite !(scanRecursive_no_root _ exts fs w e Hroot). constructor.
  - unfold scanFlat. destruct (ReadDir fs) as [entries [err |]]; [constructor |].
    pose proof (scanFlat_loop_results c exts entries [] w) as H1.
    pose proof (scanFlat_loop_results (noDateFilter c) exts entries [] w) as H2.
    destruct (foldl (scanFlat_body c exts) ([], w) entries) as [r1 w1].
    destruct (foldl (scanFlat_body (noDateFilter c) exts) ([], w) entries) as [r2 w2].
    cbn [fst] in *. subst r1 r2. apply flatMatches_noDateFilter.
Qed.

(** X12. A deep scan of a target that cannot be read, because its status or
    its listing fails, returns neither a result nor an error and counts
    nothing. *)
Theorem deep_scan_of_unreadable_target c exts fs w :
  isInt64 (scannedCount w) ->
  (exists e, rootEntry fs = inr e)
  \/ (exists name ds re, rootEntry fs = inl (Directory name ds (Some re))) ->
  fst (scanRecursive c exts fs w) = ([], None)
  /\ scannedCount (snd (scanRecursive c exts fs w)) = scannedCount w.
Proof.
  intros Hw [[e Hroot] | (name & ds & re & Hroot)].
  - rewrite (scanRecursive_no_root c exts fs w e Hroot). split; reflexivity.
  - destruct (scanRecursive_root c exts fs w _ Hw Hroot) as (w' & -> & (Hc & _)).
    split; [reflexivity |]. cbn [snd]. rewrite Hc. cbn [visitedFiles].
    rewrite Z.add_0_r. apply wrap64_small. exact Hw.
Qed.

End NarrowingFacts.

(** ** The live lines *)

Lemma length_append (a b : string) :
  String.length (a +:+ b) = (String.length a + String.length b)%nat.
Proof.
  induction a as [| c a IH]; [reflexivity |].
  change (S (String.length (a +:+ b)) = S (String.length a + String.length b)).
  rewrite IH. reflexivity.
Qed.

Lemma length_dropBytes n s :
  String.length (dropBytes n s) = (String.length s - n)%nat.
Proof.
  revert s. induction n as [| n IH]; intros s; [cbn; lia |].
  destruct s as [| c s]; [reflexivity |]. cbn [dropBytes String.length]. rewrite IH. lia.
Qed.

Lemma length_takeBytes n s :
  String.length (takeBytes n s) = Nat.min n (String.length s).
Proof.
  revert s. induction n as [| n IH]; intros s; [reflexivity |].
  destruct s as [| c s]; [reflexivity |]. cbn [takeBytes String.length]. rewrite IH. lia.
Qed.

Lemma take_drop_bytes n s : takeBytes n s +:+ dropBytes n s = s.
Proof.
  revert s. induction n as [| n IH]; intros s; [reflexivity |].
  destruct s as [| c s]; [reflexivity |].
  change (String c (takeBytes n s +:+ dropBytes n s) = String c s).
  rewrite IH. reflexivity.
Qed.

(** X13. The path shown on a directory line is never longer than 60 bytes
    and the name shown on a file line never longer than 40: a short string
    is shown as it is, a long path keeps its last 57 bytes after three dots,
    a long name keeps its first 37 bytes before three dots. *)
Theorem live_display_fits path base :
  (String.length (printLiveDirectory_displayPath path) <= 60)%nat
  /\ (String.length (printLive_displayPath base) <= 40)%nat
  /\ ((String.length path <= 60)%nat -> printLiveDirectory_displayPath path = path)
  /\ ((String.length base <= 40)%nat -> printLive_displayPath base = base)
  /\ ((60 < String.length path)%nat ->
      exists front back,
        path = front +:+ back /\ String.length back = 57%nat
        /\ printLiveDirectory_displayPath path = "..." +:+ back)
  /\ ((40 < String.length base)%nat ->
      exists front back,
        base = front +:+ back /\ String.length front = 37%nat
        /\ printLive_displayPath base = front +:+ "...").
Proof.
  unfold printLiveDirectory_displayPath, printLive_displayPath.
  destruct (Nat.ltb_spec 60 (String.length path)) as [Hp | Hp];
    destruct (Nat.ltb_spec 40 (String.length base)) as [Hb | Hb];
    rewrite ?length_append, ?length_dropBytes, ?length_takeBytes;
    cbn [String.length];
    (split; [lia |]); (split; [lia |]);
    (split; [intros; try reflexivity; lia |]);
    (split; [intros; try reflexivity; lia |]);
    split; intros Hlong; try lia.
  - exists (takeBytes (String.length path - 57) path),
      (dropBytes (String.length path - 57) path).
    rewrite take_drop_bytes, length_dropBytes. repeat split; lia.
  - exists (takeBytes 37 base), (dropBytes 37 base).
    rewrite take_drop_bytes, length_takeBytes. repeat split; lia.
  - exists (takeBytes (String.length path - 57) path),
      (dropBytes (String.length path - 57) path).
    rewrite take_drop_bytes, length_dropBytes. repeat split; lia.
  - exists (takeBytes 37 base), (dropBytes 37 base).
    rewrite take_drop_bytes, length_takeBytes. repeat split; lia.
Qed.

(** ** The Markdown rows and the size column *)

Lemma prefix_pipe c s : String.prefix "|" (String c s) = (code c =? 124).
Proof.
  cbn [String.prefix]. destruct (ascii_dec "|" c) as [<- | Hne].
  - rewrite prefix_empty. reflexivity.
  - destruct c as [[] [] [] [] [] [] [] []]; try reflexivity.
    exfalso. apply Hne. reflexivity.
Qed.

Lemma replaceFrom_pipe_cons c s :
  replaceFrom "|" "\|" 0 (String c s)
  = if code c =? 124
    then String "\"%char (String "|"%char (replaceFrom "|" "\|" 0 s))
    else String c (replaceFrom "|" "\|" 0 s).
Proof.
  cbn [replaceFrom]. rewrite prefix_pipe.
  change (String.length "|" - 1)%nat with O.
  destruct (code c =? 124); reflexivity.
Qed.

Lemma pipesEscaped_ReplaceAll s :
  forall prev, pipesEscaped prev (ReplaceAll s "|" "\|") = true.
Proof.
  unfold ReplaceAll. induction s as [| c s IH]; intros prev; [reflexivity |].
  rewrite replaceFrom_pipe_cons. destruct (code c =? 124) eqn:E.
  - cbn [pipesEscaped]. change (code "\"%char =? 124) with false.
    change (code "\"%char =? 92) with true. change (code "|"%char =? 124) with true.
    change (code "|"%char =? 92) with false. cbn [andb]. apply IH.
  - cbn [pipesEscaped]. rewrite E. cbn [andb]. apply IH.
Qed.

Lemma ReplaceAll_no_pipe s :
  (forall ch, In ch (bytes s) -> code ch <> 124) -> ReplaceAll s "|" "\|" = s.
Proof.
  unfold ReplaceAll. induction s as [| c s IH]; intros Hno; [reflexivity |].
  rewrite replaceFrom_pipe_cons.
  destruct (Z.eqb_spec (code c) 124) as [E | E].
  - exfalso. apply (Hno c); [left; reflexivity | exact E].
  - rewrite IH; [reflexivity |]. intros ch Hch. apply Hno. right. exact Hch.
Qed.

Lemma ReplaceAll_escapePipes s : ReplaceAll s "|" "\|" = escapePipes s.
Proof.
  unfold ReplaceAll. induction s as [| c s IH]; [reflexivity |].
  rewrite replaceFrom_pipe_cons. cbn [escapePipes]. rewrite IH. reflexivity.
Qed.

Lemma markdownRow_escapedRow r : markdownRow r = escapedRow r.
Proof. unfold markdownRow, escapedRow. rewrite ReplaceAll_escapePipes. reflexivity. Qed.

Lemma trace_markdown_rows filename (rows : list FileResult) w :
  trace (foldl (fun w r => emit (EFprintln filename (markdownRow r)) w) w rows)
  = trace w ++ map (fun r => EFprintln filename (escapedRow r)) rows.
Proof.
  revert w. induction rows as [| r rows IH]; intros w.
  - cbn. rewrite app_nil_r. reflexivity.
  - change (foldl (fun w r => emit (EFprintln filename (markdownRow r)) w) w (r :: rows))
      with (foldl (fun w r => emit (EFprintln filename (markdownRow r)) w)
              (emit (EFprintln filename (markdownRow r)) w) rows).
    rewrite IH. cbn [trace emit map]. rewrite markdownRow_escapedRow, <- app_assoc.
    reflexivity.
Qed.



Example escapedRow_piped :
  escapedRow pipedResult = "| 2024-01-15 10:30:00 | 1.50 KB | a.go | d\|x/a.go |"%string.
Proof. vm_compute. reflexivity. Qed.

Lemma float64_exact b : Z.abs b < 2 ^ 53 -> float64 b = b.
Proof.
  intros Hb. unfold float64.
  destruct (Z.abs b <? 2 ^ 53) eqn:E; [reflexivity |].
  apply Z.ltb_ge in E. lia.
Qed.

Lemma roundHalfEven_multiple n k : 0 <= k -> roundHalfEven (n * 2 ^ k) k = n.
Proof.
  intros Hk. unfold roundHalfEven.
  assert (Hpos : 0 < 2 ^ k) by (apply Z.pow_pos_nonneg; lia).
  rewrite Z.div_mul, Z.mod_mul by lia.
  destruct (2 ^ k <? 2 * 0) eqn:E1; [apply Z.ltb_lt in E1; lia |].
  destruct (2 * 0 =? 2 ^ k) eqn:E2; [apply Z.eqb_eq in E2; lia |].
  reflexivity.
Qed.

Lemma Sprint_2f_whole n k :
  0 <= n -> 0 <= k -> Sprint_2f (n * 2 ^ k, k) = Sprint_d n +:+ ".00".
Proof.
  intros Hn Hk.
  assert (Hpos : 0 < 2 ^ k) by (apply Z.pow_pos_nonneg; lia).
  rewrite Sprint_2f_nonneg by nia.
  replace (100 * (n * 2 ^ k)) with (100 * n * 2 ^ k) by lia.
  rewrite roundHalfEven_multiple by exact Hk.
  replace (100 * n) with (n * 100) by lia.
  rewrite Z.div_mul, Z.mod_mul by lia. reflexivity.
Qed.

Lemma formatSize_exact_range b :
  0 <= b < 2 ^ 53 ->
  formatSize b
  = if 2 ^ 30 <=? b then Sprint_2f (b, 30) +:+ " GB"
    else if 2 ^ 20 <=? b then Sprint_2f (b, 20) +:+ " MB"
    else if 2 ^ 10 <=? b then Sprint_2f (b, 10) +:+ " KB"
    else Sprint_d b +:+ " B".
Proof.
  intros Hb. unfold formatSize, float64_div.
  rewrite (float64_exact b) by lia. reflexivity.
Qed.

(** X15. A whole number [k] of kilobytes, megabytes or gigabytes, from 1 to
    1023, is rendered as [k] followed by two zero decimals and the unit. *)
Theorem formatSize_whole_units k :
  1 <= k < 1024 ->
  formatSize (k * 2 ^ 10) = Sprint_d k +:+ ".00 KB"
  /\ formatSize (k * 2 ^ 20) = Sprint_d k +:+ ".00 MB"
  /\ formatSize (k * 2 ^ 30) = Sprint_d k +:+ ".00 GB".
Proof.
  intros Hk. rewrite !formatSize_exact_range by lia. repeat split.
  - destruct (Z.leb_spec (2 ^ 30) (k * 2 ^ 10)); [lia |].
    destruct (Z.leb_spec (2 ^ 20) (k * 2 ^ 10)); [lia |].
    destruct (Z.leb_spec (2 ^ 10) (k * 2 ^ 10)); [| lia].
    rewrite Sprint_2f_whole by lia. rewrite append_assoc. reflexivity.
  - destruct (Z.leb_spec (2 ^ 30) (k * 2 ^ 20)); [lia |].
    destruct (Z.leb_spec (2 ^ 20) (k * 2 ^ 20)); [| lia].
    rewrite Sprint_2f_whole by lia. rewrite append_assoc. reflexivity.
  - destruct (Z.leb_spec (2 ^ 30) (k * 2 ^ 30)); [| lia].
    rewrite Sprint_2f_whole by lia. rewrite append_assoc. reflexivity.
Qed.

Section OutputFacts.
Context `{Platform}.

(** X16. When the report file cannot be created, the JSON and the Markdown
    formatter add to the output the failed creation and one error line and
    nothing else: nothing is written and no success is announced. *)
Theorem failed_create_writes_nothing results c fs w suffix err :
  ToLower (OutputFormat c) = suffix ->
  suffix = "json"%string \/ suffix = "md"%string ->
  createFails fs (generateFilename "output" (Extensions c) suffix) = Some err ->
  trace (handleOutput results c fs w)
  = trace w
    ++ [ECreate (generateFilename "output" (Extensions c) suffix) (Some err);
        EError ("Error creating file: " +:+ errorString err)].
Proof.
  intros Hfmt Hsuffix Hfail. unfold handleOutput. rewrite Hfmt.
  destruct Hsuffix as [-> | ->]; cbn [String.eqb Ascii.eqb Bool.eqb];
    unfold saveJSON, saveMarkdown; rewrite Hfail; cbn [trace emit];
    rewrite <- app_assoc; reflexivity.
Qed.

End OutputFacts.

(** ** Throttled checking lines *)

Lemma throttledSince_emit w0 results results' w e :
  throttled e = true ->
  throttledSince w0 (results, w) -> throttledSince w0 (results', emit e w).
Proof.
  intros He (evs & Ht & Hall). exists (evs ++ [e]). cbn [snd emit trace] in *.
  rewrite Ht, app_assoc. split; [reflexivity |].
  apply Forall_app. split; [exact Hall | repeat constructor; exact He].
Qed.

Lemma throttledSince_same w0 results results' w w' :
  trace w' = trace w ->
  throttledSince w0 (results, w) -> throttledSince w0 (results', w').
Proof.
  intros Hsame (evs & Ht & Hall). exists evs. cbn [snd] in *.
  rewrite Hsame. auto.
Qed.

Lemma throttledSince_whenLive w0 results results' w f :
  (forall w, throttled (f w) = true) ->
  throttledSince w0 (results, w) -> throttledSince w0 (results', whenLive f w).
Proof.
  intros Hf Hst. unfold whenLive. destruct (showLive w).
  - apply (throttledSince_emit w0 results); [apply Hf | exact Hst].
  - apply (throttledSince_same w0 results _ w); [reflexivity | exact Hst].
Qed.

Section ThrottleFacts.
Context `{Platform}.

Lemma scanRecursive_fn_throttled w0 c exts path a st :
  throttledSince w0 st -> throttledSince w0 (snd (scanRecursive_fn c exts path a st)).
Proof.
  destruct st as [results w]. intros Hst.
  destruct a as [[name [info |] | name ds re] | d e]; cbn [scanRecursive_fn snd].
  - set (w1 := if showLive (incScanned w) && (Z.rem (scannedCount (incScanned w)) 50 =? 0)
               then emit (ELiveScanning path (scannedCount (incScanned w))) (incScanned w)
               else incScanned w).
    assert (H1 : throttledSince w0 (results, w1)).
    { unfold w1. destruct (showLive (incScanned w)); cbn [andb].
      - destruct (Z.rem (scannedCount (incScanned w)) 50 =? 0) eqn:E.
        + apply (throttledSince_emit w0 results); [exact E |].
          apply (throttledSince_same w0 results _ w); [reflexivity | exact Hst].
        + apply (throttledSince_same w0 results _ w); [reflexivity | exact Hst].
      - apply (throttledSince_same w0 results _ w); [reflexivity | exact Hst]. }
    destruct (isMatch info c exts); cbn [snd]; [| exact H1].
    apply (throttledSince_whenLive w0 results); [reflexivity |].
    apply (throttledSince_same w0 results _ w1); [reflexivity | exact H1].
  - apply (throttledSince_same w0 results _ w); [reflexivity | exact Hst].
  - apply (throttledSince_whenLive w0 results); [reflexivity | exact Hst].
  - exact Hst.
Qed.

(** X17. Every checking line a deep scan prints carries a scanned count
    that is a multiple of 50; the directory and match lines are not
    throttled. *)
Theorem deep_scan_checking_lines_throttled c exts fs w :
  exists evs,
    trace (snd (scanRecursive c exts fs w)) = trace w ++ evs
    /\ Forall (fun e => throttled e = true) evs.
Proof.
  unfold scanRecursive.
  pose proof (WalkDir_preserves (throttledSince w) fs (cDir c) _
                (scanRecursive_fn_throttled w c exts) ([], w)) as Hinv.
  destruct (WalkDir fs (cDir c) (scanRecursive_fn c exts) ([], w))
    as [err [results w']].
  apply Hinv. exists []. split; [cbn [snd]; rewrite app_nil_r; reflexivity | constructor].
Qed.

End ThrottleFacts.

(** X18. In kilobytes and in megabytes the number printed lies between 1.00
    and 1024.00, both reached: a size just below the next threshold is
    printed as 1024.00 of the smaller unit. *)
Theorem formatSize_value_range u b :
  u = UnitKB \/ u = UnitMB ->
  unitSize u <= b < 1024 * unitSize u ->
  exists v, 100 <= v <= 102400 /\ formatSize b = rendered u b v.
Proof.
  intros Hu Hb.
  assert (Hrange : 0 <= b < 2 ^ 53) by (destruct Hu as [-> | ->]; cbn in Hb; lia).
  rewrite (formatSize_exact_range b Hrange).
  destruct Hu as [-> | ->]; cbn [unitSize] in Hb.
  - destruct (Z.leb_spec (2 ^ 30) b); [lia |].
    destruct (Z.leb_spec (2 ^ 20) b); [lia |].
    destruct (Z.leb_spec (2 ^ 10) b); [| lia].
    exists (roundHalfEven (100 * b) 10).
    pose proof (roundHalfEven_near (100 * b) 10 ltac:(lia)) as Hnear.
    split; [lia |].
    rewrite Sprint_2f_nonneg by lia. unfold rendered, unitName.
    rewrite !append_assoc. reflexivity.
  - destruct (Z.leb_spec (2 ^ 30) b); [lia |].
    destruct (Z.leb_spec (2 ^ 20) b); [| lia].
    exists (roundHalfEven (100 * b) 20).
    pose proof (roundHalfEven_near (100 * b) 20 ltac:(lia)) as Hnear.
    split; [lia |].
    rewrite Sprint_2f_nonneg by lia. unfold rendered, unitName.
    rewrite !append_assoc. reflexivity.
Qed.

(** ** The further properties at the scenario *)

(** X1 at the deep scan for [go] files with the JSON format. *)
Lemma matchCount_moves_with_results_witness :
  matchCount
    (snd (runSearch (config "" 0 0 0 true "go" "json") (allowedExts "go")
            (fileSystem scenarioTree)
            (initialWorld (config "" 0 0 0 true "go" "json"))))
  = wrap64
      (matchCount (initialWorld (config "" 0 0 0 true "go" "json"))
       + Z.of_nat
           (length
              (fst (fst (runSearch (config "" 0 0 0 true "go" "json") (allowedExts "go")
                           (fileSystem scenarioTree)
                           (initialWorld (config "" 0 0 0 true "go" "json"))))))).
Proof.
  set (cfg := config "" 0 0 0 true "go" "json").
  set (run := runSearch cfg (allowedExts "go") (fileSystem scenarioTree) (initialWorld cfg)).
  assert (Hint : isInt64 (matchCount (initialWorld cfg)))
    by (unfold isInt64; simpl; lia).
  assert (Hrun : run = (fst (fst run), None, snd run)) by (vm_compute; reflexivity).
  exact (matchCount_moves_with_results cfg (allowedExts "go")
           (fileSystem scenarioTree) (initialWorld cfg) _ _ Hint Hrun).
Defined.

(** X2 at the tabular format. *)
Lemma search_silent_unless_json_or_md_witness :
  trace
    (snd (runSearch (config "" 0 0 0 true "go" "tabular") (allowedExts "go")
            (fileSystem scenarioTree)
            (announce (config "" 0 0 0 true "go" "tabular")
               (initialWorld (config "" 0 0 0 true "go" "tabular")))))
  = trace (announce (config "" 0 0 0 true "go" "tabular")
             (initialWorld (config "" 0 0 0 true "go" "tabular"))).
Proof.
  exact (search_silent_unless_json_or_md (config "" 0 0 0 true "go" "tabular")
           (allowedExts "go") (fileSystem scenarioTree) eq_refl).
Defined.

(** X3 at the scenario. *)
Lemma scanFlat_reports_direct_files_witness :
  fst (fst (scanFlat (config "" 0 0 0 false "go" "tabular") (allowedExts "go")
              (fileSystem scenarioTree)
              (initialWorld (config "" 0 0 0 false "go" "tabular"))))
  = flatMatches (config "" 0 0 0 false "go" "tabular") (allowedExts "go")
      (fst (ReadDir (fileSystem scenarioTree)))
  /\ snd (fst (scanFlat (config "" 0 0 0 false "go" "tabular") (allowedExts "go")
                 (fileSystem scenarioTree)
                 (initialWorld (config "" 0 0 0 false "go" "tabular")))) = None
  /\ forall r,
       In r (fst (fst (scanFlat (config "" 0 0 0 false "go" "tabular") (allowedExts "go")
                         (fileSystem scenarioTree)
                         (initialWorld (config "" 0 0 0 false "go" "tabular"))))) <->
       exists name info,
         In (File name (Some info)) (fst (ReadDir (fileSystem scenarioTree)))
         /\ isMatch info (config "" 0 0 0 false "go" "tabular") (allowedExts "go") = true
         /\ r = buildResult (cDir (config "" 0 0 0 false "go" "tabular")) info.
Proof.
  exact (scanFlat_reports_direct_files (config "" 0 0 0 false "go" "tabular")
           (allowedExts "go") (fileSystem scenarioTree)
           (initialWorld (config "" 0 0 0 false "go" "tabular"))
           (fst (ReadDir (fileSystem scenarioTree))) eq_refl).
Defined.

(** X4 at the scenario. *)
Lemma scanFlat_counts_every_entry_witness :
  (forall entries,
     ReadDir (fileSystem scenarioTree) = (entries, None) ->
     scannedCount
       (snd (scanFlat (config "" 0 0 0 false "go" "tabular") (allowedExts "go")
               (fileSystem scenarioTree)
               (initialWorld (config "" 0 0 0 false "go" "tabular"))))
     = wrap64 (scannedCount (initialWorld (config "" 0 0 0 false "go" "tabular"))
               + Z.of_nat (length entries)))
  /\ (forall entries err,
        ReadDir (fileSystem scenarioTree) = (entries, Some err) ->
        scanFlat (config "" 0 0 0 false "go" "tabular") (allowedExts "go")
          (fileSystem scenarioTree)
          (initialWorld (config "" 0 0 0 false "go" "tabular"))
        = ([], Some err, initialWorld (config "" 0 0 0 false "go" "tabular"))).
Proof.
  apply (scanFlat_counts_every_entry (config "" 0 0 0 false "go" "tabular")
           (allowedExts "go") (fileSystem scenarioTree)
           (initialWorld (config "" 0 0 0 false "go" "tabular"))).
  unfold isInt64. simpl. lia.
Defined.

(** X5 at the scenario and the file [sub/c.go]. *)
Lemma deep_scan_reports_reachable_matches_witness :
  In (buildResult "d/sub" info_c_go)
    (fst (fst (scanRecursive (config "" 0 0 0 true "go" "tabular") (allowedExts "go")
                 (fileSystem scenarioTree)
                 (initialWorld (config "" 0 0 0 true "go" "tabular"))))) <->
  exists p info,
    Reachable (cDir (config "" 0 0 0 true "go" "tabular")) scenarioTree p info
    /\ isMatch info (config "" 0 0 0 true "go" "tabular") (allowedExts "go") = true
    /\ buildResult "d/sub" info_c_go = buildResult (Dir p) info.
Proof.
  apply (deep_scan_reports_reachable_matches (config "" 0 0 0 true "go" "tabular")
           (allowedExts "go") (fileSystem scenarioTree)
           (initialWorld (config "" 0 0 0 true "go" "tabular")) scenarioTree).
  - unfold isInt64. simpl. lia.
  - reflexivity.
Defined.

(** X7 at the list go, PY and the key .py. *)
Lemma allowedExts_holds_normalized_entries_witness :
  (mapIndex (allowedExts "go, PY") ".py" = true <->
     exists p, In p (Split "go, PY" ",") /\ ".py"%string = normalizeExt p)
  /\ allowedExts "go, PY" !! ".py"%string <> Some false.
Proof.
  apply (allowedExts_holds_normalized_entries "go, PY" ".py"). discriminate.
Defined.

(** X9 at the file README and the filter [go]. *)
Lemma file_without_dot_rejected_witness :
  isMatch info_readme (config "" 0 0 0 false "go" "tabular")
    (allowedExts (Extensions (config "" 0 0 0 false "go" "tabular"))) = false.
Proof.
  apply (file_without_dot_rejected info_readme (config "" 0 0 0 false "go" "tabular")).
  - discriminate.
  - intros ch Hin. cbn in Hin.
    repeat (destruct Hin as [<- | Hin]; [vm_compute; discriminate |]).
    contradiction.
Defined.

(** X10 at the combined date 15/Jan/2024. *)
Lemma non_numeric_component_rejects_witness :
  isMatch info_a_go (config "15/Jan/2024" 0 0 0 false "" "tabular") ∅ = false.
Proof.
  apply (non_numeric_component_rejects info_a_go
           (config "15/Jan/2024" 0 0 0 false "" "tabular") ∅).
  - reflexivity.
  - right. left. split; [reflexivity | simpl; lia].
Defined.

(** X11 at the deep scan with the year filter 2023. *)
Lemma date_filters_only_narrow_witness :
  fst (fst (runSearch (config "" 0 0 2023 true "" "tabular") ∅
              (fileSystem scenarioTree)
              (initialWorld (config "" 0 0 2023 true "" "tabular"))))
  `sublist_of`
  fst (fst (runSearch (noDateFilter (config "" 0 0 2023 true "" "tabular")) ∅
              (fileSystem scenarioTree)
              (initialWorld (config "" 0 0 2023 true "" "tabular")))).
Proof.
  apply (date_filters_only_narrow (config "" 0 0 2023 true "" "tabular") ∅
           (fileSystem scenarioTree)
           (initialWorld (config "" 0 0 2023 true "" "tabular"))).
  unfold isInt64. simpl. lia.
Defined.

(** X12 at a target whose status cannot be read. *)
Lemma deep_scan_of_unreadable_target_witness :
  fst (scanRecursive (config "" 0 0 0 true "" "tabular") ∅ lockedSystem
         (initialWorld (config "" 0 0 0 true "" "tabular"))) = ([], None)
  /\ scannedCount
       (snd (scanRecursive (config "" 0 0 0 true "" "tabular") ∅ lockedSystem
               (initialWorld (config "" 0 0 0 true "" "tabular"))))
     = scannedCount (initialWorld (config "" 0 0 0 true "" "tabular")).
Proof.
  apply (deep_scan_of_unreadable_target (config "" 0 0 0 true "" "tabular") ∅ lockedSystem
           (initialWorld (config "" 0 0 0 true "" "tabular"))).
  - unfold isInt64. simpl. lia.
  - left. exists (Err "permission denied"). reflexivity.
Defined.

(** X15 at 3 units. *)
Lemma formatSize_whole_units_witness :
  formatSize (3 * 2 ^ 10) = Sprint_d 3 +:+ ".00 KB"
  /\ formatSize (3 * 2 ^ 20) = Sprint_d 3 +:+ ".00 MB"
  /\ formatSize (3 * 2 ^ 30) = Sprint_d 3 +:+ ".00 GB".
Proof. apply (formatSize_whole_units 3). lia. Defined.

(** X16 at the JSON format in a directory where no file can be created. *)
Lemma failed_create_writes_nothing_witness :
  trace (handleOutput [buildResult "d" info_a_go]
           (config "" 0 0 0 false "go" "json") readOnlySystem
           (initialWorld (config "" 0 0 0 false "go" "json")))
  = trace (initialWorld (config "" 0 0 0 false "go" "json"))
    ++ [ECreate (generateFilename "output"
                   (Extensions (config "" 0 0 0 false "go" "json")) "json")
          (Some (Err "read-only file system"));
        EError ("Error creating file: " +:+ errorString (Err "read-only file system"))].
Proof.
  apply (failed_create_writes_nothing [buildResult "d" info_a_go]
           (config "" 0 0 0 false "go" "json") readOnlySystem
           (initialWorld (config "" 0 0 0 false "go" "json")) "json"
           (Err "read-only file system")).
  - reflexivity.
  - left. reflexivity.
  - reflexivity.
Defined.

(** X18 at one byte below a megabyte. *)
Lemma formatSize_value_range_witness :
  exists v, 100 <= v <= 102400 /\ formatSize 1048575 = rendered UnitKB 1048575 v.
Proof.
  apply (formatSize_value_range UnitKB 1048575).
  - left. reflexivity.
  - cbn [unitSize]. lia.
Defined.

Example main_exit_status_scenarios :
  fst (main (config "" 0 0 0 false "" "tabular") lockedSystem) = 1
  /\ fst (main (config "" 0 0 0 true "" "tabular") lockedSystem) = 0
  /\ fst (main (config "" 0 0 0 true "go" "json") readOnlySystem) = 0.
Proof. repeat split; vm_compute; reflexivity. Qed.

Section AnnouncementFacts.
Context `{Platform}.

(** X19. When the combined date is present but does not split into three
    components, the run announces an exact-date filter for it, while the
    match decides as if the combined date were absent, by the independent
    fields alone. *)
Theorem announced_exact_date_not_applied c w :
  AllDate c <> ""%string ->
  length (Split (AllDate c) "/") <> 3%nat ->
  trace (printDateFilter c w)
  = trace w ++ [EInfo ("Date Filter: Exact match for " +:+ AllDate c)]
  /\ forall info exts, isMatch info c exts = isMatch info (withAllDate c "") exts.
Proof.
  intros Hpresent Hparts. apply String.eqb_neq in Hpresent.
  apply Nat.eqb_neq in Hparts. split.
  - unfold printDateFilter. rewrite Hpresent. reflexivity.
  - intros info exts. unfold isMatch.
    destruct ((0 <? size exts)%nat && _); [reflexivity |].
    cbn [Date AllDate withAllDate Year Month Day String.eqb negb andb].
    rewrite Hpresent, Hparts. reflexivity.
Qed.

End AnnouncementFacts.

(** X19 at the combined date 15-1-2024, written with dashes. *)
Lemma announced_exact_date_not_applied_witness :
  trace (printDateFilter (config "15-1-2024" 0 0 0 false "" "tabular")
           (initialWorld (config "15-1-2024" 0 0 0 false "" "tabular")))
  = trace (initialWorld (config "15-1-2024" 0 0 0 false "" "tabular"))
    ++ [EInfo ("Date Filter: Exact match for "
               +:+ AllDate (config "15-1-2024" 0 0 0 false "" "tabular"))]
  /\ forall info exts,
       isMatch info (config "15-1-2024" 0 0 0 false "" "tabular") exts
       = isMatch info (withAllDate (config "15-1-2024" 0 0 0 false "" "tabular") "") exts.
Proof.
  apply (announced_exact_date_not_applied
           (config "15-1-2024" 0 0 0 false "" "tabular")
           (initialWorld (config "15-1-2024" 0 0 0 false "" "tabular"))).
  - discriminate.
  - vm_compute. lia.
Defined.
